(** * finch/run_continuous.py: the continuous optimisation orchestrator

    A shallow embedding of [run_continuous_finch] and its helpers
    ([_initial_shared_state_object], [_initialize_for_next_image],
    [_get_random_image_path], [_prep_image], [_wait_for_next_image]).

    The orchestrator runs in one thread and shares a [State] object with the
    rendering thread.  Everything it cannot decide itself is read from an
    environment [Env] indexed by a logical step counter: the two clocks
    ([time.time()] and [datetime.now()]), the draws of [random.choice], the
    randomness used inside [iterate_image], and the writes the rendering
    thread makes to the three control flags.  Loops take fuel; an outcome
    [Running] is a loop that is still running when the fuel is spent. *)

From Stdlib Require Import ZArith QArith List String Bool Arith Lia.
Import ListNotations.

Local Open Scope Z_scope.

(** ** Collaborators

    Everything imported from [finch.*], [cv2], [os] and [numpy] is a parameter
    of the development.  Fitness scores are compared with [>=] only, so they
    are integers here (the sentinel of the source is the literal 9999999). *)

Record StateDefaults := {
  default_score : Z;
  default_image_available : bool;
  default_update_time_microseconds : Z;
  default_flag_stop : bool;
  default_flag_next_image : bool;
  default_lock_image : bool
}.

(** A specimen is an object with a mutable attribute [is_placeholder]; the
    strokes it is made of belong to [finch.generate]. *)
Record SpecimenOf (Strokes : Type) := {
  is_placeholder : bool;
  strokes : Strokes
}.
Arguments is_placeholder {Strokes} _.
Arguments strokes {Strokes} _.

Class Collaborators := {
  SpecimenData : Type;
  FitnessState : Type;
  Image : Type;
  ImageGradient : Type;
  BrushSet : Type;
  Dimension : Type;
  DifferenceMethod : Type;
  Seed : Type;
  (* finch.difference_image.DifferenceMethod.DELTAE, finch.brush.BrushSet.Canvas *)
  DELTAE : DifferenceMethod;
  Canvas : BrushSet;
  (* np.zeros((0,0,1)) *)
  empty_image : Image;
  (* finch.generate *)
  (* the second argument is the keyword is_placeholder, None when omitted *)
  get_initial_specimen : Image -> option bool -> SpecimenOf SpecimenData;
  iterate_image :
    SpecimenOf SpecimenData -> FitnessState -> Image -> ImageGradient ->
    bool -> DifferenceMethod -> Seed ->
    SpecimenOf SpecimenData * FitnessState * Z;
  is_drawing_finished : nat -> Z -> bool;
  (* finch.fitness *)
  get_fitness :
    SpecimenOf SpecimenData -> Image -> DifferenceMethod -> FitnessState;
  (* cv2, finch.interface, finch.scale, finch.image_gradient *)
  imread : string -> Image;
  get_window_size : bool -> Dimension;
  scale_to_dimension : Image -> Dimension -> Image;
  blur : Image -> Z * Z -> Image;
  mkImageGradient : Image -> ImageGradient;
  (* os.listdir, os.path.isfile, os.path.join *)
  listdir : string -> list string;
  isfile : string -> bool;
  join : string -> string -> string;
  (* the field defaults of the dataclass finch.shared_state.State *)
  state_defaults : StateDefaults
}.

Definition Specimen `{Collaborators} : Type := SpecimenOf SpecimenData.

(** ** Constants of the module *)

Definition MAXIMUM_TIME_PER_IMAGE_SECONDS : Q := inject_Z (10 * 60).
Definition MINIMUM_STEP_TIME_SECONDS : Q := (1 # 10000)%Q.
Definition WAIT_BETWEEN_IMAGES_SECONDS : Q := inject_Z (1 * 60).
Definition DIFF_METHOD `{Collaborators} : DifferenceMethod := DELTAE.
Definition FULLSCREEN : bool := true.

(** [x < y] on the readings of [time.time()]. *)
Definition Qlt_bool (x y : Q) : bool := negb (Qle_bool y x).

(** ** The shared state, the environment and the world *)

Section Model.
Context `{C : Collaborators}.

(** [finch.shared_state.State], with the fields this module reads or writes. *)
Record State := {
  img_path : string;
  brush : BrushSet;
  target_image : Image;
  specimen : Specimen;
  score : Z;
  image_available : bool;
  update_time_microseconds : Z;
  flag_stop : bool;
  flag_next_image : bool;
  lock_image : bool
}.

(** What the rendering thread writes while the orchestrator is between two
    statements: for each control flag, nothing or a new value. *)
Record Interference := {
  w_flag_stop : option bool;
  w_flag_next_image : option bool;
  w_lock_image : option bool
}.

Definition idle : Interference :=
  {| w_flag_stop := None; w_flag_next_image := None; w_lock_image := None |}.

Definition overwrite (o : option bool) (b : bool) : bool :=
  match o with Some v => v | None => b end.

Definition apply_interference (i : Interference) (s : State) : State :=
  {| img_path := img_path s; brush := brush s; target_image := target_image s;
     specimen := specimen s; score := score s;
     image_available := image_available s;
     update_time_microseconds := update_time_microseconds s;
     flag_stop := overwrite (w_flag_stop i) (flag_stop s);
     flag_next_image := overwrite (w_flag_next_image i) (flag_next_image s);
     lock_image := overwrite (w_lock_image i) (lock_image s) |}.

(** The environment, indexed by the logical step at which it is consulted.
    Readings of [time.time()] are exact rationals, in seconds; those of
    [datetime.now()] are whole microseconds, the resolution of a datetime. *)
Record Env := {
  clock_at : nat -> Q;             (* time.time(), seconds *)
  datetime_at : nat -> Z;          (* datetime.now(), microseconds *)
  draw_at : nat -> nat;            (* the index random.choice draws *)
  seed_at : nat -> Seed;           (* the randomness of iterate_image *)
  presenter_at : nat -> Interference
}.

Inductive Field :=
| F_img_path | F_brush | F_target_image | F_specimen | F_specimen_is_placeholder
| F_score | F_image_available | F_update_time_microseconds | F_flag_next_image.

(** What the orchestrator does that is visible from outside, newest first. *)
Inductive Event :=
| EvWrite (f : Field)
| EvSleep (seconds : Q)
| EvThreadStart
| EvThreadJoin
| EvPreloadBrushTextures
| EvIterate.

Record World := {
  shared : State;
  step : nat;
  trace : list Event
}.

Inductive outcome (A : Type) :=
| Done (a : A) (w : World)
| Raised (exception : string) (w : World)
| Running (w : World).
Arguments Done {A} a w.
Arguments Raised {A} exception w.
Arguments Running {A} w.

Definition world_of {A} (o : outcome A) : World :=
  match o with Done _ w => w | Raised _ w => w | Running w => w end.

(** ** A state-and-exception monad over the world *)

Definition M (A : Type) : Type := World -> outcome A.

Definition ret {A} (a : A) : M A := fun w => Done a w.

Definition bind {A B} (m : M A) (k : A -> M B) : M B :=
  fun w =>
    match m w with
    | Done a w' => k a w'
    | Raised e w' => Raised e w'
    | Running w' => Running w'
    end.

Definition raise {A} (e : string) : M A := fun w => Raised e w.
Definition out_of_fuel {A} : M A := fun w => Running w.

End Model.

Arguments Done {C A} a w.
Arguments Raised {C A} exception w.
Arguments Running {C A} w.

Declare Scope finch_scope.
Delimit Scope finch_scope with finch.
Notation "x <- m ;; k" := (bind m (fun x => k))
  (at level 61, m at next level, right associativity) : finch_scope.
Notation "' p <- m ;; k" := (bind m (fun x => match x with p => k end))
  (at level 61, p pattern, m at next level, right associativity) : finch_scope.
Notation "m ;; k" := (bind m (fun _ => k))
  (at level 61, right associativity) : finch_scope.

Local Open Scope finch_scope.

(** ** Primitive operations *)

Section Orchestrator.
Context `{C : Collaborators}.
Variable env : Env.

(** Every consultation of the environment uses up one logical step. *)
Definition tick : M nat :=
  fun w => Done (step w)
             {| shared := shared w; step := S (step w); trace := trace w |}.

Definition log (e : Event) : M unit :=
  fun w => Done tt
             {| shared := shared w; step := step w; trace := e :: trace w |}.

Definition get {A} (field : State -> A) : M A :=
  fun w => Done (field (shared w)) w.

Definition assign (f : Field) (update : State -> State) : M unit :=
  fun w => Done tt
             {| shared := update (shared w); step := step w;
                trace := EvWrite f :: trace w |}.

Definition time_time : M Q := n <- tick ;; ret (clock_at env n).
Definition datetime_now : M Z := n <- tick ;; ret (datetime_at env n).
Definition time_sleep (seconds : Q) : M unit := log (EvSleep seconds).

(** The rendering thread runs between two statements of the orchestrator. *)
Definition yield_to_presenter : M unit :=
  fun w => Done tt
             {| shared :=
                  apply_interference (presenter_at env (step w)) (shared w);
                step := S (step w); trace := trace w |}.

(** [random.choice(seq)]: IndexError on an empty sequence. *)
Definition random_choice {A} (seq : list A) : M A :=
  match seq with
  | [] => raise "IndexError"
  | x :: _ =>
      n <- tick ;;
      ret (nth (draw_at env n mod List.length seq)%nat seq x)
  end.

(** Python's short-circuit [and], [or] and [not] on effectful operands. *)
Definition andM (a b : M bool) : M bool :=
  x <- a ;; if x then b else ret false.
Definition orM (a b : M bool) : M bool :=
  x <- a ;; if x then ret true else b.
Definition notM (a : M bool) : M bool :=
  x <- a ;; ret (negb x).

(** Assignments to the attributes of [shared_state]. *)
Definition with_img_path (v : string) (s : State) : State :=
  {| img_path := v; brush := brush s; target_image := target_image s;
     specimen := specimen s; score := score s;
     image_available := image_available s;
     update_time_microseconds := update_time_microseconds s;
     flag_stop := flag_stop s; flag_next_image := flag_next_image s;
     lock_image := lock_image s |}.

Definition with_brush (v : BrushSet) (s : State) : State :=
  {| img_path := img_path s; brush := v; target_image := target_image s;
     specimen := specimen s; score := score s;
     image_available := image_available s;
     update_time_microseconds := update_time_microseconds s;
     flag_stop := flag_stop s; flag_next_image := flag_next_image s;
     lock_image := lock_image s |}.

Definition with_target_image (v : Image) (s : State) : State :=
  {| img_path := img_path s; brush := brush s; target_image := v;
     specimen := specimen s; score := score s;
     image_available := image_available s;
     update_time_microseconds := update_time_microseconds s;
     flag_stop := flag_stop s; flag_next_image := flag_next_image s;
     lock_image := lock_image s |}.

Definition with_specimen (v : Specimen) (s : State) : State :=
  {| img_path := img_path s; brush := brush s; target_image := target_image s;
     specimen := v; score := score s;
     image_available := image_available s;
     update_time_microseconds := update_time_microseconds s;
     flag_stop := flag_stop s; flag_next_image := flag_next_image s;
     lock_image := lock_image s |}.

Definition with_score (v : Z) (s : State) : State :=
  {| img_path := img_path s; brush := brush s; target_image := target_image s;
     specimen := specimen s; score := v;
     image_available := image_available s;
     update_time_microseconds := update_time_microseconds s;
     flag_stop := flag_stop s; flag_next_image := flag_next_image s;
     lock_image := lock_image s |}.

Definition with_image_available (v : bool) (s : State) : State :=
  {| img_path := img_path s; brush := brush s; target_image := target_image s;
     specimen := specimen s; score := score s;
     image_available := v;
     update_time_microseconds := update_time_microseconds s;
     flag_stop := flag_stop s; flag_next_image := flag_next_image s;
     lock_image := lock_image s |}.

Definition with_update_time_microseconds (v : Z) (s : State) : State :=
  {| img_path := img_path s; brush := brush s; target_image := target_image s;
     specimen := specimen s; score := score s;
     image_available := image_available s;
     update_time_microseconds := v;
     flag_stop := flag_stop s; flag_next_image := flag_next_image s;
     lock_image := lock_image s |}.

Definition with_flag_next_image (v : bool) (s : State) : State :=
  {| img_path := img_path s; brush := brush s; target_image := target_image s;
     specimen := specimen s; score := score s;
     image_available := image_available s;
     update_time_microseconds := update_time_microseconds s;
     flag_stop := flag_stop s; flag_next_image := v;
     lock_image := lock_image s |}.

Definition set_img_path (v : string) : M unit :=
  assign F_img_path (with_img_path v).
Definition set_brush (v : BrushSet) : M unit :=
  assign F_brush (with_brush v).
Definition set_target_image (v : Image) : M unit :=
  assign F_target_image (with_target_image v).
Definition set_specimen (v : Specimen) : M unit :=
  assign F_specimen (with_specimen v).
Definition set_score (v : Z) : M unit :=
  assign F_score (with_score v).
Definition set_image_available (v : bool) : M unit :=
  assign F_image_available (with_image_available v).
Definition set_update_time_microseconds (v : Z) : M unit :=
  assign F_update_time_microseconds (with_update_time_microseconds v).
Definition set_flag_next_image (v : bool) : M unit :=
  assign F_flag_next_image (with_flag_next_image v).

(** [shared_state.specimen.is_placeholder = v] mutates the specimen object in
    place. *)
Definition set_specimen_is_placeholder (v : bool) : M unit :=
  assign F_specimen_is_placeholder
    (fun s =>
       with_specimen
         {| is_placeholder := v; strokes := strokes (specimen s) |} s).

(** ** [_initial_shared_state_object] *)

Definition _initial_shared_state_object : State :=
  let empty := empty_image in
  {| img_path := "";
     brush := Canvas;
     target_image := empty;
     specimen := get_initial_specimen empty (Some true);
     score := default_score state_defaults;
     image_available := default_image_available state_defaults;
     update_time_microseconds :=
       default_update_time_microseconds state_defaults;
     flag_stop := default_flag_stop state_defaults;
     flag_next_image := default_flag_next_image state_defaults;
     lock_image := default_lock_image state_defaults |}.

(** ** [_prep_image] *)

Definition _prep_image (path : string) : Image * ImageGradient :=
  let image := imread path in
  let dimension := get_window_size FULLSCREEN in
  let image := scale_to_dimension image dimension in
  let image := blur image (5, 5) in
  (image, mkImageGradient image).

(** ** [_get_random_image_path] *)

(** [[join(image_folder, f) for f in listdir(image_folder)
      if isfile(join(image_folder, f))]] *)
Definition img_paths (image_folder : string) : list string :=
  map (fun f => join image_folder f)
      (filter (fun f => isfile (join image_folder f)) (listdir image_folder)).

(** [while img_path == previous: img_path = random.choice(img_paths)];
    one unit of fuel per execution of the loop body. *)
Fixpoint choose_until_different (fuel : nat) (paths : list string)
    (previous path : string) : M string :=
  if String.eqb path previous then
    match fuel with
    | O => out_of_fuel
    | S fuel' =>
        p <- random_choice paths ;;
        choose_until_different fuel' paths previous p
    end
  else ret path.

Definition _get_random_image_path (fuel : nat) (image_folder previous : string)
    : M string :=
  let paths := img_paths image_folder in
  choose_until_different fuel paths previous previous.

(** ** [_initialize_for_next_image] *)

Definition _initialize_for_next_image (fuel : nat) (image_folder : string)
    (brush_sets : list BrushSet) : M (Image * ImageGradient * FitnessState) :=
  previous <- get img_path ;;
  path <- _get_random_image_path fuel image_folder previous ;;
  set_img_path path ;;
  b <- random_choice brush_sets ;;
  set_brush b ;;
  log EvPreloadBrushTextures ;;
  path <- get img_path ;;
  let '(target, target_gradient) := _prep_image path in
  set_target_image target ;;
  sp <- get specimen ;;
  (if is_placeholder sp then
     set_specimen (get_initial_specimen target None) ;;
     set_specimen_is_placeholder false
   else ret tt) ;;
  set_score 9999999 ;;
  sp <- get specimen ;;
  ret (target, target_gradient, get_fitness sp target DIFF_METHOD).

(** ** [_wait_for_next_image] *)

(** The condition of the wait loop:
    [lock_image or (time.time() - wait_start < WAIT_BETWEEN_IMAGES_SECONDS
                    and not flag_stop and not flag_next_image)]. *)
Definition wait_condition (wait_start : Q) : M bool :=
  orM (get lock_image)
      (andM (t <- time_time ;;
             ret (Qlt_bool (t - wait_start) WAIT_BETWEEN_IMAGES_SECONDS))
            (andM (notM (get flag_stop)) (notM (get flag_next_image)))).

Fixpoint wait_loop (fuel : nat) (wait_start : Q) : M unit :=
  yield_to_presenter ;;
  c <- wait_condition wait_start ;;
  if c then
    match fuel with
    | O => out_of_fuel
    | S fuel' => time_sleep 1 ;; wait_loop fuel' wait_start
    end
  else ret tt.

Definition _wait_for_next_image (fuel : nat) : M unit :=
  wait_start <- time_time ;;
  wait_loop fuel wait_start.

(** ** [run_continuous_finch] *)

(** The locals that live across images ... *)
Record Counters := {
  n_iterations_with_same_score : nat;
  last_update_time : Z
}.

(** ... and the locals of one image. *)
Record ImageVars := {
  target : Image;
  target_gradient : ImageGradient;
  fitness : FitnessState;
  generation_index : nat;
  image_start_time : Q
}.

(** The condition of the per-image loop (lines 59-63). *)
Definition loop_condition (start : Q) : M bool :=
  andM (notM (get flag_stop))
       (andM (notM (get flag_next_image))
             (orM (get lock_image)
                  (t <- time_time ;;
                   ret (Qlt_bool (t - start) MAXIMUM_TIME_PER_IMAGE_SECONDS)))).

(** "Only keep the new version if it is an improvement" (lines 77-84). *)
Definition keep_if_improvement
    (candidate : Specimen * FitnessState * Z) (fit : FitnessState) (n : nat)
    : M (nat * FitnessState) :=
  let '(new_specimen, new_fitness, new_score) := candidate in
  current <- get score ;;
  if new_score >=? current then ret (S n, fit)
  else
    set_score new_score ;;
    set_specimen new_specimen ;;
    set_image_available true ;;
    ret (O, new_fitness).

(** The convergence check of line 96. *)
Definition finished_check (n : nat) : M bool :=
  andM (notM (get lock_image))
       (current <- get score ;; ret (is_drawing_finished n current)).

(** The call of [iterate_image] (lines 67-74). *)
Definition propose (iv : ImageVars) : M (Specimen * FitnessState * Z) :=
  sp <- get specimen ;;
  k <- tick ;;
  log EvIterate ;;
  ret (iterate_image sp (fitness iv) (target iv) (target_gradient iv)
         false DIFF_METHOD (seed_at env k)).

(** One iteration of the per-image loop (lines 64-101); the boolean is
    [true] when the iteration leaves the loop through [break]. *)
Definition loop_body (iv : ImageVars) (cs : Counters)
    : M (bool * ImageVars * Counters) :=
  frame_start_time <- time_time ;;
  let generation := S (generation_index iv) in
  candidate <- propose iv ;;
  '(n, fit) <- keep_if_improvement candidate (fitness iv)
                 (n_iterations_with_same_score cs) ;;
  current_update_time <- datetime_now ;;
  set_update_time_microseconds
    ((current_update_time - last_update_time cs) mod 1000000) ;;
  let iv' := {| target := target iv; target_gradient := target_gradient iv;
                fitness := fit; generation_index := generation;
                image_start_time := image_start_time iv |} in
  let cs' := {| n_iterations_with_same_score := n;
                last_update_time := current_update_time |} in
  yield_to_presenter ;;
  finished <- finished_check n ;;
  if finished then ret (true, iv', cs')
  else
    now <- time_time ;;
    let frame_time := (now - frame_start_time)%Q in
    (if Qlt_bool frame_time MINIMUM_STEP_TIME_SECONDS
     then time_sleep (MINIMUM_STEP_TIME_SECONDS - frame_time)
     else ret tt) ;;
    ret (false, iv', cs').

Fixpoint image_loop (fuel : nat) (iv : ImageVars) (cs : Counters)
    : M (ImageVars * Counters) :=
  yield_to_presenter ;;
  continue <- loop_condition (image_start_time iv) ;;
  if continue then
    match fuel with
    | O => out_of_fuel
    | S fuel' =>
        '(break, iv', cs') <- loop_body iv cs ;;
        if break then ret (iv', cs') else image_loop fuel' iv' cs'
    end
  else ret (iv, cs).

(** The body of the outer loop (lines 54-104). *)
Definition outer_body (fuel : nat) (image_folder : string)
    (brush_sets : list BrushSet) (cs : Counters) : M Counters :=
  '(tgt, grad, fit) <- _initialize_for_next_image fuel image_folder brush_sets ;;
  start <- time_time ;;
  '(_, cs') <- image_loop fuel
                 {| target := tgt; target_gradient := grad; fitness := fit;
                    generation_index := O; image_start_time := start |} cs ;;
  _wait_for_next_image fuel ;;
  set_flag_next_image false ;;
  ret cs'.

Fixpoint main_loop (fuel : nat) (image_folder : string)
    (brush_sets : list BrushSet) (cs : Counters) : M Counters :=
  yield_to_presenter ;;
  stop <- get flag_stop ;;
  if negb stop then
    match fuel with
    | O => out_of_fuel
    | S fuel' =>
        cs' <- outer_body fuel image_folder brush_sets cs ;;
        main_loop fuel' image_folder brush_sets cs'
    end
  else ret cs.

Definition initial_world : World :=
  {| shared := _initial_shared_state_object; step := O; trace := [] |}.

Definition run_continuous_finch (fuel : nat) (image_folder : string)
    (brush_sets : list BrushSet) : outcome unit :=
  (let n := O in
   last <- datetime_now ;;
   log EvThreadStart ;;
   time_sleep (1 # 10) ;;
   main_loop fuel image_folder brush_sets
     {| n_iterations_with_same_score := n; last_update_time := last |} ;;
   log EvThreadJoin) initial_world.

End Orchestrator.

(** ** Observations used in the statements *)

Section Observations.
Context `{C : Collaborators}.

(** The candidate the iteration started in world [w] receives from
    [iterate_image]: the body reads the clock at step [step w] and draws the
    seed at the next step. *)
Definition candidate_of (env : Env) (iv : ImageVars) (w : World)
    : Specimen * FitnessState * Z :=
  iterate_image (specimen (shared w)) (fitness iv) (target iv)
    (target_gradient iv) false DIFF_METHOD (seed_at env (S (step w))).

Definition candidate_specimen (env : Env) (iv : ImageVars) (w : World) :=
  fst (fst (candidate_of env iv w)).
Definition candidate_fitness (env : Env) (iv : ImageVars) (w : World) :=
  snd (fst (candidate_of env iv w)).
Definition candidate_score (env : Env) (iv : ImageVars) (w : World) :=
  snd (candidate_of env iv w).

(** The fields of [shared_state] assigned in a trace, newest first. *)
Fixpoint writes (t : list Event) : list Field :=
  match t with
  | [] => []
  | EvWrite f :: t' => f :: writes t'
  | _ :: t' => writes t'
  end.

(** The number of calls of [iterate_image] in a trace. *)
Fixpoint iterations (t : list Event) : nat :=
  match t with
  | [] => O
  | EvIterate :: t' => S (iterations t')
  | _ :: t' => iterations t'
  end.

(** The rendering thread never clears the lock, never sets it, never raises
    one of the two exit flags. *)
Definition never_unlocks (env : Env) : Prop :=
  forall n, w_lock_image (presenter_at env n) <> Some false.
Definition never_locks (env : Env) : Prop :=
  forall n, w_lock_image (presenter_at env n) <> Some true.
Definition never_signals (env : Env) : Prop :=
  forall n, w_flag_stop (presenter_at env n) <> Some true /\
            w_flag_next_image (presenter_at env n) <> Some true.

(** The path [random.choice(paths)] returns when it draws at step [k]. *)
Definition drawn (env : Env) (paths : list string) (k : nat) : string :=
  nth (draw_at env k mod List.length paths)%nat paths ""%string.

(** The world once the rendering thread has had its turn. *)
Definition after_yield (env : Env) (w : World) : World :=
  {| shared := apply_interference (presenter_at env (step w)) (shared w);
     step := S (step w); trace := trace w |}.

(** The same environment with other clocks. *)
Definition with_clocks (env : Env) (clock : nat -> Q) (datetime : nat -> Z)
    : Env :=
  {| clock_at := clock; datetime_at := datetime; draw_at := draw_at env;
     seed_at := seed_at env; presenter_at := presenter_at env |}.

Definition counters_of {A} (o : outcome (A * Counters)) : option nat :=
  match o with
  | Done (_, cs) _ => Some (n_iterations_with_same_score cs)
  | _ => None
  end.

End Observations.

(** ** A small concrete instance

    Strokes are counted, the candidate's score is the seed it was drawn with,
    a drawing is finished after three iterations without improvement, and
    three directories exist: "empty", "single" and "pair". *)

Module Demo.
Local Open Scope string_scope.

Definition demo_iterate_image (sp : SpecimenOf nat) (fit : Z)
    (tgt grad : string) (store_brushes : bool) (method : unit) (seed : Z)
    : SpecimenOf nat * Z * Z :=
  ({| is_placeholder := is_placeholder sp; strokes := S (strokes sp) |},
   seed, seed).

Definition demo_listdir (folder : string) : list string :=
  if String.eqb folder "single" then ["a.png"]
  else if String.eqb folder "pair" then ["a.png"; "b.png"]
  else [].

#[export] Instance demo : Collaborators := {|
  SpecimenData := nat;
  FitnessState := Z;
  Image := string;
  ImageGradient := string;
  BrushSet := nat;
  Dimension := Z * Z;
  DifferenceMethod := unit;
  Seed := Z;
  DELTAE := tt;
  Canvas := O;
  empty_image := "";
  get_initial_specimen := fun _ flag =>
    {| is_placeholder := match flag with Some b => b | None => false end;
       strokes := O |};
  iterate_image := demo_iterate_image;
  is_drawing_finished := fun n _ => (3 <=? n)%nat;
  get_fitness := fun _ _ _ => 9999999;
  imread := fun path => path;
  get_window_size := fun _ => (1920, 1080);
  scale_to_dimension := fun image _ => image;
  blur := fun image _ => image;
  mkImageGradient := fun image => image;
  listdir := demo_listdir;
  isfile := fun _ => true;
  join := fun folder f => (folder ++ "/" ++ f)%string;
  state_defaults :=
    {| default_score := 0; default_image_available := false;
       default_update_time_microseconds := 0; default_flag_stop := false;
       default_flag_next_image := false; default_lock_image := false |}
|}.

(** Environments in which the rendering thread writes nothing; the clock
    advances by one second per step, from zero or from long past the
    per-image budget. *)
Definition ticking (n : nat) : Q := inject_Z (Z.of_nat n).
Definition late (n : nat) : Q := inject_Z (1000000 + Z.of_nat n).

Definition quiet_env (clock : nat -> Q) (seeds : nat -> Z)
    (draws : nat -> nat) : Env :=
  {| clock_at := clock;
     datetime_at := fun n => 1000000 * Z.of_nat n;
     draw_at := draws;
     seed_at := seeds;
     presenter_at := fun _ => idle |}.

Definition demo_state (sc : Z) (stop next lock : bool) : State :=
  {| img_path := "pair/a.png"; brush := O; target_image := "pair/a.png";
     specimen := {| is_placeholder := false; strokes := 7%nat |};
     score := sc; image_available := true; update_time_microseconds := 0;
     flag_stop := stop; flag_next_image := next; lock_image := lock |}.

Definition demo_world (sc : Z) (stop next lock : bool) : World :=
  {| shared := demo_state sc stop next lock; step := O; trace := [] |}.

Definition demo_image_vars : ImageVars :=
  {| target := "pair/a.png"; target_gradient := "pair/a.png";
     fitness := 9999999; generation_index := O; image_start_time := 0%Q |}.

Definition demo_counters (n : nat) : Counters :=
  {| n_iterations_with_same_score := n; last_update_time := 0 |}.

End Demo.

(** ** Further observations *)

Section MoreObservations.
Context `{C : Collaborators}.

(** The durations passed to [time.sleep] in a trace, newest first. *)
Fixpoint sleeps (t : list Event) : list Q :=
  match t with
  | [] => []
  | EvSleep d :: t' => d :: sleeps t'
  | _ :: t' => sleeps t'
  end.

(** The shared state as the first evaluation of a loop condition in world
    [w] sees it. *)
Definition seen (env : Env) (w : World) : State :=
  shared (after_yield env w).

(** The world after one consultation of the environment. *)
Definition ticked (w : World) : World :=
  {| shared := shared w; step := S (step w); trace := trace w |}.

End MoreObservations.

(** ** Further concrete data *)

Module MoreDemo.
Import Demo.
Local Open Scope string_scope.

(** A rendering thread that raises [flag_stop] at every turn. *)
Definition stopping_env : Env :=
  {| clock_at := ticking;
     datetime_at := fun n => 1000000 * Z.of_nat n;
     draw_at := fun n => n;
     seed_at := fun _ => 3;
     presenter_at := fun _ =>
       {| w_flag_stop := Some true; w_flag_next_image := None;
          w_lock_image := None |} |}.

(** The concrete instance again, with a directory "nested" that holds two
    sub-directories and no regular file. *)
Definition demo_nested : Collaborators := {|
  SpecimenData := nat;
  FitnessState := Z;
  Image := string;
  ImageGradient := string;
  BrushSet := nat;
  Dimension := Z * Z;
  DifferenceMethod := unit;
  Seed := Z;
  DELTAE := tt;
  Canvas := O;
  empty_image := "";
  get_initial_specimen := fun _ flag =>
    {| is_placeholder := match flag with Some b => b | None => false end;
       strokes := O |};
  iterate_image := demo_iterate_image;
  is_drawing_finished := fun n _ => (3 <=? n)%nat;
  get_fitness := fun _ _ _ => 9999999;
  imread := fun path => path;
  get_window_size := fun _ => (1920, 1080);
  scale_to_dimension := fun image _ => image;
  blur := fun image _ => image;
  mkImageGradient := fun image => image;
  listdir := fun folder =>
    if String.eqb folder "nested" then ["2023"; "2024"]
    else demo_listdir folder;
  isfile := fun path =>
    negb (String.eqb path "nested/2023" || String.eqb path "nested/2024");
  join := fun folder f => (folder ++ "/" ++ f)%string;
  state_defaults :=
    {| default_score := 0; default_image_available := false;
       default_update_time_microseconds := 0; default_flag_stop := false;
       default_flag_next_image := false; default_lock_image := false |}
|}.

Definition nested_env : @Env demo_nested :=
  @Build_Env demo_nested ticking (fun n => 1000000 * Z.of_nat n)
    (fun n => n) (fun _ => 3) (fun _ => idle).

Definition nested_world : @World demo_nested :=
  @Build_World demo_nested (@_initial_shared_state_object demo_nested)
    O [].

End MoreDemo.

(** * Properties *)

Section Properties.
Context `{C : Collaborators}.

Ltac run :=
  unfold andM, orM, notM, time_time, datetime_now, time_sleep;
  unfold bind, ret, get, assign, tick, log, yield_to_presenter, id;
  cbv beta; cbn [shared step trace].

(** ** One iteration of the per-image loop *)

Lemma loop_body_spec (env : Env) (iv : ImageVars) (cs : Counters) (w : World) :
  let accepted := negb (candidate_score env iv w >=? score (shared w)) in
  let iv' :=
    {| target := target iv; target_gradient := target_gradient iv;
       fitness := if accepted then candidate_fitness env iv w else fitness iv;
       generation_index := S (generation_index iv);
       image_start_time := image_start_time iv |} in
  let cs' :=
    {| n_iterations_with_same_score :=
         if accepted then O else S (n_iterations_with_same_score cs);
       last_update_time := datetime_at env (S (S (step w))) |} in
  exists brk w' sleeps,
    loop_body env iv cs w = Done (brk, iv', cs') w' /\
    shared w' =
      apply_interference (presenter_at env (S (S (S (step w)))))
        (with_update_time_microseconds
           ((datetime_at env (S (S (step w))) - last_update_time cs)
            mod 1000000)
           (if accepted
            then with_image_available true
                   (with_specimen (candidate_specimen env iv w)
                      (with_score (candidate_score env iv w) (shared w)))
            else shared w)) /\
    trace w' =
      sleeps ++ EvWrite F_update_time_microseconds ::
      (if accepted
       then [EvWrite F_image_available; EvWrite F_specimen; EvWrite F_score]
       else []) ++ EvIterate :: trace w /\
    writes sleeps = [] /\ iterations sleeps = O /\
    brk = negb (lock_image (shared w')) &&
          is_drawing_finished (n_iterations_with_same_score cs')
            (score (shared w')).
Proof.
  unfold candidate_score, candidate_fitness, candidate_specimen, candidate_of.
  unfold loop_body, propose, keep_if_improvement, finished_check,
    set_update_time_microseconds, set_score, set_specimen, set_image_available.
  run. cbn.
  destruct (iterate_image _ _ _ _ _ _ _) as [[ns nf] nsc].
  cbn.
  destruct (nsc >=? score (shared w)); cbn;
    destruct (overwrite _ _) eqn:El; cbn;
    try destruct (is_drawing_finished _ _) eqn:E; cbn;
    try destruct (Qlt_bool _ _); cbn.
  all: first
    [ eexists _, _, []; split; [reflexivity|]; cbn; rewrite ?El, ?E; cbn;
      repeat split; reflexivity
    | eexists _, _, [_]; split; [reflexivity|]; cbn; rewrite ?El, ?E; cbn;
      repeat split; reflexivity ].
Qed.

Lemma loop_condition_spec (env : Env) (start : Q) (w : World) :
  exists w',
    loop_condition env start w =
      Done (negb (flag_stop (shared w)) && negb (flag_next_image (shared w)) &&
            (lock_image (shared w) ||
             Qlt_bool (clock_at env (step w) - start)
               MAXIMUM_TIME_PER_IMAGE_SECONDS)) w' /\
    shared w' = shared w /\ trace w' = trace w /\
    (lock_image (shared w) = true -> w' = w).
Proof.
  unfold loop_condition. run.
  destruct (flag_stop (shared w)) eqn:Es; cbn; rewrite ?Es; cbn;
    destruct (flag_next_image (shared w)) eqn:En; cbn; rewrite ?En; cbn;
    destruct (lock_image (shared w)) eqn:El; cbn; rewrite ?El; cbn;
    eexists; repeat split; intros; try reflexivity; try discriminate.
Qed.

Lemma image_loop_unfold (env : Env) (fuel : nat) (iv : ImageVars)
    (cs : Counters) :
  image_loop env fuel iv cs =
  (yield_to_presenter env ;;
   continue <- loop_condition env (image_start_time iv) ;;
   if continue then
     match fuel with
     | O => out_of_fuel
     | S fuel' =>
         '(break, iv', cs') <- loop_body env iv cs ;;
         if break then ret (iv', cs') else image_loop env fuel' iv' cs'
     end
   else ret (iv, cs)).
Proof. destruct fuel; reflexivity. Qed.

Lemma yield_spec (env : Env) (w : World) :
  yield_to_presenter env w = Done tt (after_yield env w).
Proof. reflexivity. Qed.

(** Invariants of the per-image loop: a property of the locals, the shared
    state and the trace that survives the rendering thread's turn and one
    iteration holds wherever the loop stands or stops. *)
Lemma image_loop_invariant (env : Env)
    (I : ImageVars -> Counters -> World -> Prop) :
  (forall iv cs w, I iv cs w -> I iv cs (after_yield env w)) ->
  (forall iv cs w w',
      shared w' = shared w -> trace w' = trace w -> I iv cs w -> I iv cs w') ->
  (forall iv cs w brk iv' cs' w',
      loop_body env iv cs w = Done (brk, iv', cs') w' ->
      I iv cs w -> I iv' cs' w') ->
  forall fuel iv cs w,
    I iv cs w ->
    match image_loop env fuel iv cs w with
    | Done (iv', cs') w' => I iv' cs' w'
    | Running w' => exists iv' cs', I iv' cs' w'
    | Raised _ _ => False
    end.
Proof.
  intros Hyield Hstep Hbody.
  induction fuel as [|fuel IH]; intros iv cs w HI;
    rewrite image_loop_unfold; unfold bind at 1; rewrite yield_spec;
    unfold bind at 1;
    destruct (loop_condition_spec env (image_start_time iv) (after_yield env w))
      as (w2 & -> & Hs & Ht & _);
    assert (HI2 : I iv cs w2) by
      (apply (Hstep iv cs (after_yield env w)); auto);
    match goal with |- context [if ?c then _ else _] => destruct c end;
    cbn [out_of_fuel ret]; eauto.
  unfold bind at 1.
  destruct (loop_body_spec env iv cs w2) as (brk & w3 & sl & E & _).
  rewrite E. specialize (Hbody _ _ _ _ _ _ _ E HI2).
  destruct brk; cbn [ret]; [exact Hbody | apply IH; exact Hbody].
Qed.

Lemma writes_app (a b : list Event) : writes (a ++ b) = writes a ++ writes b.
Proof.
  induction a as [|e a IH]; [reflexivity|].
  destruct e; cbn; rewrite IH; reflexivity.
Qed.

Lemma iterations_app (a b : list Event) :
  iterations (a ++ b) = (iterations a + iterations b)%nat.
Proof.
  induction a as [|e a IH]; [reflexivity|].
  destruct e; cbn; rewrite IH; reflexivity.
Qed.

(** What one iteration does, read off its result. *)
Lemma loop_body_cases (env : Env) (iv : ImageVars) (cs : Counters) (w : World)
    (brk : bool) (iv' : ImageVars) (cs' : Counters) (w' : World) :
  loop_body env iv cs w = Done (brk, iv', cs') w' ->
  iterations (trace w') = S (iterations (trace w)) /\
  brk = negb (lock_image (shared w')) &&
        is_drawing_finished (n_iterations_with_same_score cs')
          (score (shared w')) /\
  ((candidate_score env iv w >= score (shared w) /\
    specimen (shared w') = specimen (shared w) /\
    score (shared w') = score (shared w) /\
    image_available (shared w') = image_available (shared w) /\
    fitness iv' = fitness iv /\
    n_iterations_with_same_score cs' = S (n_iterations_with_same_score cs) /\
    writes (trace w') = F_update_time_microseconds :: writes (trace w))
   \/
   (candidate_score env iv w < score (shared w) /\
    specimen (shared w') = candidate_specimen env iv w /\
    score (shared w') = candidate_score env iv w /\
    image_available (shared w') = true /\
    fitness iv' = candidate_fitness env iv w /\
    n_iterations_with_same_score cs' = O /\
    writes (trace w') =
      [F_update_time_microseconds; F_image_available; F_specimen; F_score]
      ++ writes (trace w))).
Proof.
  intros E.
  destruct (loop_body_spec env iv cs w)
    as (brk0 & w0 & sl & E0 & Hsh & Htr & Hw & Hi & Hb).
  rewrite E0 in E. injection E as <- <- <- <-.
  split; [|split; [exact Hb|]].
  - rewrite Htr, iterations_app, Hi. cbn.
    destruct (negb _); reflexivity.
  - rewrite Htr, writes_app, Hw, Hsh. cbn.
    destruct (candidate_score env iv w >=? score (shared w)) eqn:Ecmp; cbn.
    + left. repeat split; try reflexivity. lia.
    + right. repeat split; try reflexivity. lia.
Qed.

(** ** The wait between two images, seen from the shared state *)

Lemma wait_loop_unfold (env : Env) (fuel : nat) (start : Q) :
  wait_loop env fuel start =
  (yield_to_presenter env ;;
   c <- wait_condition env start ;;
   if c then
     match fuel with
     | O => out_of_fuel
     | S fuel' => time_sleep 1 ;; wait_loop env fuel' start
     end
   else ret tt).
Proof. destruct fuel; reflexivity. Qed.

Lemma wait_condition_spec (env : Env) (start : Q) (w : World) :
  exists b w',
    wait_condition env start w = Done b w' /\
    shared w' = shared w /\ trace w' = trace w.
Proof.
  unfold wait_condition. run.
  destruct (lock_image (shared w)); cbn; [eauto|].
  destruct (Qlt_bool _ _); cbn; [|eauto].
  destruct (flag_stop (shared w)); cbn; eauto.
Qed.

(** The wait assigns nothing and calls [iterate_image] never. *)
Lemma wait_loop_preserves (env : Env) :
  forall fuel start w,
    match wait_loop env fuel start w with
    | Done _ w' | Running w' =>
        score (shared w') = score (shared w) /\
        specimen (shared w') = specimen (shared w) /\
        iterations (trace w') = iterations (trace w) /\
        writes (trace w') = writes (trace w)
    | Raised _ _ => False
    end.
Proof.
  induction fuel as [|fuel IH]; intros start w;
    rewrite wait_loop_unfold; unfold bind at 1; rewrite yield_spec;
    unfold bind at 1;
    destruct (wait_condition_spec env start (after_yield env w))
      as (b & w1 & -> & Hs & Ht);
    destruct b; cbn [ret out_of_fuel]; rewrite ?Hs, ?Ht; cbn; auto.
  unfold time_sleep, log, bind.
  match goal with
  | |- context [wait_loop env fuel start ?w2] =>
      specialize (IH start w2); destruct (wait_loop env fuel start w2)
  end; auto; cbn [shared trace] in IH; rewrite Hs, Ht in IH; exact IH.
Qed.

(** ** Acceptance, monotonicity and the stagnation counter *)

(** C1. Every iteration of the per-image loop returns, and the candidate of
    [iterate_image] replaces the shared specimen and score exactly when its
    score is strictly below the shared score: then the fitness state is the
    candidate's, [image_available] is true and the stagnation counter is 0;
    when the candidate's score is greater or equal, specimen, score, fitness
    state and [image_available] are what they were. *)
Theorem acceptance_rule (env : Env) (iv : ImageVars) (cs : Counters)
    (w : World) :
  exists brk iv' cs' w',
    loop_body env iv cs w = Done (brk, iv', cs') w' /\
    ((candidate_score env iv w < score (shared w) /\
      specimen (shared w') = candidate_specimen env iv w /\
      score (shared w') = candidate_score env iv w /\
      fitness iv' = candidate_fitness env iv w /\
      image_available (shared w') = true /\
      n_iterations_with_same_score cs' = O)
     \/
     (candidate_score env iv w >= score (shared w) /\
      specimen (shared w') = specimen (shared w) /\
      score (shared w') = score (shared w) /\
      fitness iv' = fitness iv /\
      image_available (shared w') = image_available (shared w))).
Proof.
  destruct (loop_body_spec env iv cs w) as (brk & w' & sl & E & _).
  eexists _, _, _, _. split; [exact E|].
  destruct (loop_body_cases _ _ _ _ _ _ _ _ E) as (_ & _ & [H|H]).
  - right. tauto.
  - left. tauto.
Qed.

(** C2. Within one image session the shared score never increases: after
    every iteration it is at most what it was before, the specimen is either
    untouched or replaced by a candidate whose score is strictly below the
    stored one, and wherever the per-image loop stands or stops the score is
    at most the score the session started with. *)
Theorem score_non_increasing (env : Env) :
  (forall iv cs w,
      exists brk iv' cs' w',
        loop_body env iv cs w = Done (brk, iv', cs') w' /\
        score (shared w') <= score (shared w) /\
        (specimen (shared w') = specimen (shared w) \/
         (specimen (shared w') = candidate_specimen env iv w /\
          score (shared w') = candidate_score env iv w /\
          candidate_score env iv w < score (shared w)))) /\
  (forall fuel iv cs w,
      score (shared (world_of (image_loop env fuel iv cs w)))
      <= score (shared w)) /\
  (forall fuel w,
      match _wait_for_next_image env fuel w with
      | Done _ w' | Running w' =>
          score (shared w') = score (shared w) /\
          specimen (shared w') = specimen (shared w)
      | Raised _ _ => False
      end).
Proof.
  split; [|split].
  - intros iv cs w.
    destruct (loop_body_spec env iv cs w) as (brk & w' & sl & E & _).
    eexists _, _, _, _. split; [exact E|].
    destruct (loop_body_cases _ _ _ _ _ _ _ _ E)
      as (_ & _ & [(_ & Hsp & Hsc & _)|(Hlt & Hsp & Hsc & _)]).
    + split; [lia | left; exact Hsp].
    + split; [lia | right; auto].
  - intros fuel iv cs w.
    pose proof (image_loop_invariant env
      (fun _ _ w' => score (shared w') <= score (shared w))) as H.
    cbv beta in H.
    specialize (H (fun _ _ _ Hle => Hle)).
    assert (H2 : forall (iv0 : ImageVars) (cs0 : Counters) (w0 w' : World),
               shared w' = shared w0 -> trace w' = trace w0 ->
               score (shared w0) <= score (shared w) ->
               score (shared w') <= score (shared w))
      by (intros ? ? ? ? -> _ Hle; exact Hle).
    specialize (H H2). clear H2.
    assert (H3 : forall iv0 cs0 w0 brk iv' cs' w',
               loop_body env iv0 cs0 w0 = Done (brk, iv', cs') w' ->
               score (shared w0) <= score (shared w) ->
               score (shared w') <= score (shared w)).
    { intros iv0 cs0 w0 brk iv' cs' w' E Hle.
      destruct (loop_body_cases _ _ _ _ _ _ _ _ E)
        as (_ & _ & [(_ & _ & Hsc & _)|(Hlt & _ & Hsc & _)]); lia. }
    specialize (H H3 fuel iv cs w (Z.le_refl _)).
    destruct (image_loop env fuel iv cs w) as [[iv' cs'] w'|e w'|w'];
      cbn [world_of];
      [exact H | destruct H | destruct H as (_ & _ & H); exact H].
  - intros fuel w. unfold _wait_for_next_image. run.
    match goal with
    | |- context [wait_loop env fuel ?s ?w1] =>
        pose proof (wait_loop_preserves env fuel s w1) as H;
        destruct (wait_loop env fuel s w1)
    end; tauto.
Qed.

(** C3. In every iteration the stagnation counter goes up by exactly one
    when the candidate's score is greater than or equal to the shared score
    and becomes exactly zero when it is strictly lower; the readings of the
    two clocks have no influence on it. *)
Theorem stagnation_counter (env : Env) (iv : ImageVars) (cs : Counters)
    (w : World) :
  (exists brk iv' cs' w',
      loop_body env iv cs w = Done (brk, iv', cs') w' /\
      ((candidate_score env iv w >= score (shared w) /\
        n_iterations_with_same_score cs'
        = S (n_iterations_with_same_score cs))
       \/
       (candidate_score env iv w < score (shared w) /\
        n_iterations_with_same_score cs' = O))) /\
  (forall clock datetime,
      counters_of (loop_body (with_clocks env clock datetime) iv cs w)
      = counters_of (loop_body env iv cs w)).
Proof.
  split.
  - destruct (loop_body_spec env iv cs w) as (brk & w' & sl & E & _).
    eexists _, _, _, _. split; [exact E|].
    destruct (loop_body_cases _ _ _ _ _ _ _ _ E) as (_ & _ & [H|H]).
    + left. tauto.
    + right. tauto.
  - intros clock datetime.
    destruct (loop_body_spec env iv cs w) as (brk & w' & sl & -> & _).
    destruct (loop_body_spec (with_clocks env clock datetime) iv cs w)
      as (brk2 & w2 & sl2 & -> & _).
    reflexivity.
Qed.

(** ** The lock *)

(** The control flags after one iteration are the flags before it, as the
    rendering thread rewrote them at the yield before the convergence check. *)
Lemma loop_body_flags (env : Env) (iv : ImageVars) (cs : Counters) (w : World)
    (brk : bool) (iv' : ImageVars) (cs' : Counters) (w' : World) :
  loop_body env iv cs w = Done (brk, iv', cs') w' ->
  let p := presenter_at env (S (S (S (step w)))) in
  flag_stop (shared w') = overwrite (w_flag_stop p) (flag_stop (shared w)) /\
  flag_next_image (shared w')
  = overwrite (w_flag_next_image p) (flag_next_image (shared w)) /\
  lock_image (shared w') = overwrite (w_lock_image p) (lock_image (shared w)).
Proof.
  intros E.
  destruct (loop_body_spec env iv cs w)
    as (brk0 & w0 & sl & E0 & Hsh & _).
  rewrite E0 in E. injection E as <- <- <- <-.
  rewrite Hsh. destruct (negb _); cbn; auto.
Qed.

Lemma overwrite_stays_true (o : option bool) (b : bool) :
  o <> Some false -> b = true -> overwrite o b = true.
Proof. destruct o as [[|]|]; cbn; congruence. Qed.

Lemma overwrite_stays_false (o : option bool) (b : bool) :
  o <> Some true -> b = false -> overwrite o b = false.
Proof. destruct o as [[|]|]; cbn; congruence. Qed.

Lemma image_loop_locked_exit (env : Env) :
  never_unlocks env ->
  forall fuel iv cs w,
    lock_image (shared w) = true ->
    match image_loop env fuel iv cs w with
    | Done _ w' =>
        flag_stop (shared w') = true \/ flag_next_image (shared w') = true
    | Raised _ _ => False
    | Running _ => True
    end.
Proof.
  intros Hnever.
  induction fuel as [|fuel IH]; intros iv cs w Hlock;
    rewrite image_loop_unfold; unfold bind at 1; rewrite yield_spec;
    unfold bind at 1;
    assert (Hlock1 : lock_image (shared (after_yield env w)) = true)
      by (cbn; apply overwrite_stays_true; auto);
    destruct (loop_condition_spec env (image_start_time iv) (after_yield env w))
      as (w2 & -> & _ & _ & Hw2);
    specialize (Hw2 Hlock1); subst w2; rewrite Hlock1, orb_true_l, andb_true_r.
  - destruct (flag_stop (shared (after_yield env w))) eqn:Es;
      destruct (flag_next_image (shared (after_yield env w))) eqn:En;
      cbn [negb andb ret out_of_fuel]; auto.
  - destruct (flag_stop (shared (after_yield env w))) eqn:Es;
      destruct (flag_next_image (shared (after_yield env w))) eqn:En;
      cbn [negb andb ret]; auto.
    unfold bind at 1.
    destruct (loop_body_spec env iv cs (after_yield env w))
      as (brk & w3 & sl & E & _ & _ & _ & _ & Hb).
    rewrite E.
    destruct (loop_body_flags _ _ _ _ _ _ _ _ E) as (_ & _ & Hl).
    rewrite overwrite_stays_true in Hl by auto.
    rewrite Hl in Hb. cbn in Hb. subst brk.
    apply IH. exact Hl.
Qed.

Lemma image_loop_locked_runs (env : Env) :
  never_unlocks env -> never_signals env ->
  forall fuel iv cs w,
    lock_image (shared w) = true ->
    flag_stop (shared w) = false ->
    flag_next_image (shared w) = false ->
    exists w', image_loop env fuel iv cs w = Running w'.
Proof.
  intros Hnever Hquiet.
  induction fuel as [|fuel IH]; intros iv cs w Hlock Hstop Hnext;
    rewrite image_loop_unfold; unfold bind at 1; rewrite yield_spec;
    unfold bind at 1;
    assert (Hlock1 : lock_image (shared (after_yield env w)) = true)
      by (cbn; apply overwrite_stays_true; auto);
    assert (Hstop1 : flag_stop (shared (after_yield env w)) = false)
      by (cbn; apply overwrite_stays_false; auto; apply Hquiet);
    assert (Hnext1 : flag_next_image (shared (after_yield env w)) = false)
      by (cbn; apply overwrite_stays_false; auto; apply Hquiet);
    destruct (loop_condition_spec env (image_start_time iv) (after_yield env w))
      as (w2 & -> & _ & _ & Hw2);
    specialize (Hw2 Hlock1); subst w2;
    rewrite Hlock1, Hstop1, Hnext1; cbn [negb andb orb].
  - eexists. reflexivity.
  - unfold bind at 1.
    destruct (loop_body_spec env iv cs (after_yield env w))
      as (brk & w3 & sl & E & _ & _ & _ & _ & Hb).
    rewrite E.
    destruct (loop_body_flags _ _ _ _ _ _ _ _ E) as (Hs & Hn & Hl).
    rewrite overwrite_stays_true in Hl by auto.
    rewrite overwrite_stays_false in Hs by (auto; apply Hquiet).
    rewrite overwrite_stays_false in Hn by (auto; apply Hquiet).
    rewrite Hl in Hb. cbn in Hb. subst brk.
    apply IH; assumption.
Qed.

Lemma finished_check_locked (n : nat) (w : World) :
  lock_image (shared w) = true -> finished_check n w = Done false w.
Proof. intros H. unfold finished_check. run. rewrite H. reflexivity. Qed.

(** C4. While [lock_image] holds, the condition of the per-image loop is
    [not flag_stop and not flag_next_image] and the clock is not even read,
    and the convergence check of line 96 is false without calling
    [is_drawing_finished].  So, as long as the rendering thread does not
    clear the lock, the loop only ever stops with [flag_stop] or
    [flag_next_image] set, and if neither flag is raised it is still running
    after any number of iterations, whatever the clock says. *)
Theorem lock_overrides_timeout (env : Env) :
  (forall start w,
      lock_image (shared w) = true ->
      loop_condition env start w
      = Done (negb (flag_stop (shared w)) && negb (flag_next_image (shared w)))
          w) /\
  (forall n w,
      lock_image (shared w) = true -> finished_check n w = Done false w) /\
  (never_unlocks env ->
   forall fuel iv cs w,
     lock_image (shared w) = true ->
     match image_loop env fuel iv cs w with
     | Done _ w' =>
         flag_stop (shared w') = true \/ flag_next_image (shared w') = true
     | Raised _ _ => False
     | Running _ => True
     end) /\
  (never_unlocks env -> never_signals env ->
   forall fuel iv cs w,
     lock_image (shared w) = true ->
     flag_stop (shared w) = false ->
     flag_next_image (shared w) = false ->
     exists w', image_loop env fuel iv cs w = Running w').
Proof.
  repeat split.
  - intros start w Hlock.
    destruct (loop_condition_spec env start w) as (w' & E & _ & _ & Hw).
    rewrite (Hw Hlock) in E. rewrite E, Hlock, orb_true_l, andb_true_r.
    reflexivity.
  - apply finished_check_locked.
  - apply image_loop_locked_exit.
  - apply image_loop_locked_runs.
Qed.

(** ** The wait between two images *)

Lemma wait_condition_locked (env : Env) (start : Q) (w : World) :
  lock_image (shared w) = true -> wait_condition env start w = Done true w.
Proof. intros H. unfold wait_condition. run. rewrite H. reflexivity. Qed.

Lemma wait_loop_locked (env : Env) :
  never_unlocks env ->
  forall fuel start w,
    lock_image (shared w) = true ->
    exists w',
      wait_loop env fuel start w = Running w' /\
      lock_image (shared w') = true /\
      step w' = (step w + S fuel)%nat /\
      iterations (trace w') = iterations (trace w) /\
      writes (trace w') = writes (trace w).
Proof.
  intros Hnever.
  induction fuel as [|fuel IH]; intros start w Hlock;
    rewrite wait_loop_unfold; unfold bind at 1; rewrite yield_spec;
    unfold bind at 1;
    assert (Hlock1 : lock_image (shared (after_yield env w)) = true)
      by (cbn; apply overwrite_stays_true; auto);
    rewrite (wait_condition_locked env start _ Hlock1).
  - eexists. split; [reflexivity|]. repeat split; auto. cbn. lia.
  - unfold time_sleep, log, bind. cbn [shared step trace].
    match goal with
    | |- context [wait_loop env fuel start ?w1] =>
        destruct (IH start w1) as (w' & E & Hl & Hst & Hit & Hwr);
          [exact Hlock1|]
    end.
    exists w'. split; [exact E|]. cbn in *. repeat split; auto. lia.
Qed.

(** C5. The wait between two images does not end on [flag_stop] or
    [flag_next_image] while [lock_image] holds: its condition is true
    whatever the two flags and the clock are, so as long as the rendering
    thread does not clear the lock the wait is still polling after any number
    of poll intervals. *)
Theorem wait_ignores_exit_flags_while_locked (env : Env) :
  (forall start w,
      lock_image (shared w) = true -> wait_condition env start w = Done true w)
  /\
  (never_unlocks env ->
   forall fuel w,
     lock_image (shared w) = true ->
     exists w', _wait_for_next_image env fuel w = Running w').
Proof.
  split; [apply wait_condition_locked|].
  intros Hnever fuel w Hlock.
  unfold _wait_for_next_image. run.
  match goal with
  | |- context [wait_loop env fuel ?s ?w1] =>
      destruct (wait_loop_locked env Hnever fuel s w1 Hlock) as (w' & E & _)
  end.
  exists w'. exact E.
Qed.

(** ** The image selector *)

Lemma random_choice_nonempty (env : Env) (paths : list string) (w : World) :
  paths <> [] ->
  random_choice env paths w
  = Done (drawn env paths (step w))
      {| shared := shared w; step := S (step w); trace := trace w |} /\
  In (drawn env paths (step w)) paths.
Proof.
  intros Hne. destruct paths as [|x l]; [congruence|].
  assert (Hlt : (draw_at env (step w) mod List.length (x :: l)
                 < List.length (x :: l))%nat)
    by (apply Nat.mod_upper_bound; discriminate).
  unfold random_choice, drawn. run. split.
  - f_equal. apply nth_indep. exact Hlt.
  - apply nth_In. exact Hlt.
Qed.

Lemma choose_until_different_unfold (env : Env) (fuel : nat)
    (paths : list string) (previous path : string) :
  choose_until_different env fuel paths previous path =
  if String.eqb path previous then
    match fuel with
    | O => out_of_fuel
    | S fuel' =>
        p <- random_choice env paths ;;
        choose_until_different env fuel' paths previous p
    end
  else ret path.
Proof. destruct fuel; reflexivity. Qed.

(** The retry loop stops at the first draw that differs from [previous]. *)
Lemma choose_until_different_spec (env : Env) (paths : list string)
    (previous : string) :
  paths <> [] ->
  forall fuel path w,
    match choose_until_different env fuel paths previous path w with
    | Done p w' => p <> previous /\ (p = path \/ In p paths)
    | Raised _ _ => False
    | Running w' =>
        path = previous /\
        forall k, (k < fuel)%nat -> drawn env paths (step w + k) = previous
    end.
Proof.
  intros Hne.
  induction fuel as [|fuel IH]; intros path w;
    rewrite choose_until_different_unfold;
    destruct (String.eqb_spec path previous) as [Heq|Hneq];
    cbn [ret out_of_fuel]; auto.
  - split; [exact Heq | intros k Hk; lia].
  - unfold bind.
    destruct (random_choice_nonempty env paths w Hne) as (-> & Hin).
    specialize (IH (drawn env paths (step w))
      {| shared := shared w; step := S (step w); trace := trace w |}).
    destruct (choose_until_different env fuel paths previous _ _)
      as [p w'|e w'|w'].
    + destruct IH as (Hp & [->|Hp']); auto.
    + exact IH.
    + destruct IH as (Hd & Hall). cbn [step] in Hall. split; [exact Heq|].
      intros [|k] Hk.
      * rewrite Nat.add_0_r. exact Hd.
      * replace (step w + S k)%nat with (S (step w) + k)%nat by lia.
        apply Hall. lia.
Qed.

Lemma two_distinct_paths (paths : list string) (previous : string) :
  NoDup paths -> (2 <= List.length paths)%nat ->
  exists i, (i < List.length paths)%nat /\ nth i paths ""%string <> previous.
Proof.
  intros Hnd Hlen.
  destruct paths as [|a [|b l]]; cbn in Hlen; try lia.
  destruct (String.eqb_spec a previous) as [Heq|Hneq].
  - exists 1%nat. cbn. split; [lia|].
    intros Hb. inversion Hnd as [|? ? Hnotin _]. apply Hnotin.
    left. congruence.
  - exists 0%nat. cbn. split; [lia | exact Hneq].
Qed.

(** C6. In a directory with two or more distinct files, whatever the
    previous path: some file differs from it; the selector never fails, and
    what it returns is one of the directory's files and differs from the
    previous path; it is still drawing only while every draw so far was the
    previous path, so it returns as soon as one draw differs; and with the
    two files [A; B] and previous path [A] what it returns is [B]. *)
Theorem selector_non_repetition (env : Env) (image_folder previous : string)
    (Hdistinct : NoDup (img_paths image_folder))
    (Htwo : (2 <= List.length (img_paths image_folder))%nat) :
  let paths := img_paths image_folder in
  (exists i, (i < List.length paths)%nat /\ nth i paths ""%string <> previous)
  /\
  (forall fuel w,
      match _get_random_image_path env fuel image_folder previous w with
      | Done p _ => In p paths /\ p <> previous
      | Raised _ _ => False
      | Running _ =>
          forall k, (k < fuel)%nat -> drawn env paths (step w + k) = previous
      end) /\
  (forall fuel w k,
      (k < fuel)%nat -> drawn env paths (step w + k) <> previous ->
      exists p w',
        _get_random_image_path env fuel image_folder previous w = Done p w' /\
        In p paths /\ p <> previous) /\
  (forall A B fuel w,
      paths = [A; B] -> previous = A ->
      match _get_random_image_path env fuel image_folder previous w with
      | Done p _ => p = B
      | Raised _ _ => False
      | Running _ => True
      end).
Proof.
  intros paths.
  assert (Hne : paths <> [])
    by (intros E; subst paths; rewrite E in Htwo; cbn in Htwo; lia).
  assert (Hspec : forall fuel w,
    match _get_random_image_path env fuel image_folder previous w with
    | Done p _ => In p paths /\ p <> previous
    | Raised _ _ => False
    | Running _ =>
        forall k, (k < fuel)%nat -> drawn env paths (step w + k) = previous
    end).
  { intros fuel w. unfold _get_random_image_path. fold paths.
    pose proof (choose_until_different_spec env paths previous Hne
                  fuel previous w) as H.
    destruct (choose_until_different env fuel paths previous previous w)
      as [p w'|e w'|w'].
    - destruct H as (Hp & [->|Hin]); [congruence | auto].
    - exact H.
    - apply H. }
  split; [apply two_distinct_paths; assumption|].
  split; [exact Hspec|]. split.
  - intros fuel w k Hk Hdraw. specialize (Hspec fuel w).
    destruct (_get_random_image_path env fuel image_folder previous w)
      as [p w'|e w'|w'].
    + exists p, w'. tauto.
    + destruct Hspec.
    + exfalso. apply Hdraw. apply Hspec. exact Hk.
  - intros A B fuel w Hpaths Hprev. specialize (Hspec fuel w).
    destruct (_get_random_image_path env fuel image_folder previous w)
      as [p w'|e w'|w']; auto.
    destruct Hspec as (Hin & Hp). rewrite Hpaths in Hin. cbn in Hin.
    destruct Hin as [<-|[<-|[]]]; congruence.
Qed.

(** C7. When the directory holds exactly one file and the previous path is
    that file, the selector's retry loop is still running after any number
    of retries, whatever [random.choice] draws. *)
Theorem single_file_never_returns (env : Env) (fuel : nat)
    (image_folder p : string) (w : World) :
  img_paths image_folder = [p] ->
  exists w', _get_random_image_path env fuel image_folder p w = Running w'.
Proof.
  intros Hone. unfold _get_random_image_path. rewrite Hone.
  revert w. induction fuel as [|fuel IH]; intros w;
    rewrite choose_until_different_unfold, String.eqb_refl.
  - eexists. reflexivity.
  - unfold random_choice. run. cbn [List.length nth].
    rewrite Nat.mod_1_r. apply IH.
Qed.

(** ** Per-image initialisation *)

(** The retry loop only uses up steps, and IndexError is all it raises. *)
Lemma choose_until_different_world (env : Env) (paths : list string)
    (previous : string) :
  forall fuel path w,
    let o := choose_until_different env fuel paths previous path w in
    shared (world_of o) = shared w /\ trace (world_of o) = trace w /\
    match o with Raised e _ => e = "IndexError"%string | _ => True end.
Proof.
  induction fuel as [|fuel IH]; intros path w;
    rewrite choose_until_different_unfold;
    destruct (String.eqb path previous); cbn; auto.
  unfold bind, random_choice. destruct paths as [|x l]; cbn; auto.
  run.
  match goal with
  | |- context [choose_until_different env fuel ?ps previous ?p ?w1] =>
      destruct (IH p w1) as (Hs & Ht & He);
      destruct (choose_until_different env fuel ps previous p w1)
  end; cbn in *; auto.
Qed.

(** An empty directory makes the selector raise IndexError at once. *)
Lemma empty_directory_raises (env : Env) (fuel : nat)
    (image_folder previous : string) (w : World) :
  img_paths image_folder = [] ->
  _get_random_image_path env (S fuel) image_folder previous w
  = Raised "IndexError" w.
Proof.
  intros Hempty. unfold _get_random_image_path. rewrite Hempty.
  cbn. rewrite String.eqb_refl. reflexivity.
Qed.

(** What per-image initialisation leaves behind when it returns. *)
Lemma initialize_spec (env : Env) (fuel : nat) (image_folder : string)
    (brush_sets : list BrushSet) (w : World) :
  match _initialize_for_next_image env fuel image_folder brush_sets w with
  | Done (tgt, grad, fit) w' =>
      score (shared w') = 9999999 /\
      flag_stop (shared w') = flag_stop (shared w) /\
      flag_next_image (shared w') = flag_next_image (shared w) /\
      lock_image (shared w') = lock_image (shared w) /\
      iterations (trace w') = iterations (trace w) /\
      ((is_placeholder (specimen (shared w)) = false /\
        specimen (shared w') = specimen (shared w) /\
        writes (trace w') =
          [F_score; F_target_image; F_brush; F_img_path] ++ writes (trace w))
       \/
       (is_placeholder (specimen (shared w)) = true /\
        specimen (shared w') =
          {| is_placeholder := false;
             strokes := strokes (get_initial_specimen tgt None) |} /\
        writes (trace w') =
          [F_score; F_specimen_is_placeholder; F_specimen; F_target_image;
           F_brush; F_img_path] ++ writes (trace w)))
  | Raised e w' =>
      e = "IndexError"%string /\ iterations (trace w') = iterations (trace w)
  | Running w' => iterations (trace w') = iterations (trace w)
  end.
Proof.
  unfold _initialize_for_next_image, _get_random_image_path.
  unfold bind at 1. unfold get at 1.
  unfold bind at 1.
  pose proof (choose_until_different_world env (img_paths image_folder)
                (img_path (shared w)) fuel (img_path (shared w)) w) as Hw.
  cbv zeta in Hw.
  destruct (choose_until_different env fuel (img_paths image_folder)
              (img_path (shared w)) (img_path (shared w)) w)
    as [p [sh1 st1 tr1]|e w1|w1]; cbn [world_of shared trace] in Hw;
    destruct Hw as (Hs & Ht & He).
  - subst sh1 tr1. unfold set_img_path. run.
    unfold random_choice. destruct brush_sets as [|b l]; cbn; [auto|].
    unfold set_brush, set_target_image, set_specimen,
      set_specimen_is_placeholder, set_score. run. cbn.
    destruct (is_placeholder (specimen (shared w))) eqn:Eph; cbn.
    + repeat split; auto 6.
    + repeat split; auto 6.
  - rewrite Ht. auto.
  - rewrite Ht. auto.
Qed.

(** C8 (amended). With an empty input directory, and [flag_stop] not raised
    when the outer loop first tests it, the program fails with the IndexError
    of [random.choice], raised in the first per-image initialisation: no
    iteration of the optimisation loop has run and nothing has been written
    to the shared state. *)
Theorem empty_directory_fails_before_first_iteration (env : Env) (fuel : nat)
    (image_folder : string) (brush_sets : list BrushSet) :
  img_paths image_folder = [] ->
  overwrite (w_flag_stop (presenter_at env 1))
    (default_flag_stop state_defaults) = false ->
  exists w',
    run_continuous_finch env (S fuel) image_folder brush_sets
    = Raised "IndexError" w' /\
    iterations (trace w') = O /\ writes (trace w') = [].
Proof.
  intros Hempty Hstop.
  unfold run_continuous_finch, initial_world. run.
  cbn [main_loop]. run.
  cbn [apply_interference flag_stop _initial_shared_state_object].
  rewrite Hstop. cbn [negb].
  unfold outer_body, _initialize_for_next_image. run.
  rewrite (empty_directory_raises env fuel image_folder _ _ Hempty).
  eexists. split; [reflexivity|]. split; reflexivity.
Qed.

(** ** The counter across images *)

Lemma outer_body_counter (env : Env) (fuel : nat) (image_folder : string)
    (brush_sets : list BrushSet) (cs : Counters) (w : World) :
  match outer_body env fuel image_folder brush_sets cs w with
  | Done cs' w' =>
      score (shared w') <= 9999999 /\
      (score (shared w') = 9999999 ->
       (n_iterations_with_same_score cs' + iterations (trace w)
        = n_iterations_with_same_score cs + iterations (trace w'))%nat)
  | _ => True
  end.
Proof.
  unfold outer_body. unfold bind at 1.
  pose proof (initialize_spec env fuel image_folder brush_sets w) as Hinit.
  destruct (_initialize_for_next_image env fuel image_folder brush_sets w)
    as [[[tgt grad] fit] w1|e w1|w1]; auto.
  destruct Hinit as (Hsc & _ & _ & _ & Hit & _).
  unfold bind at 1. unfold time_time at 1. run.
  set (w2 := {| shared := shared w1; step := S (step w1); trace := trace w1 |}).
  set (iv := {| target := tgt; target_gradient := grad; fitness := fit;
                generation_index := O;
                image_start_time := clock_at env (step w1) |}).
  pose proof (image_loop_invariant env
    (fun _ cs' w' =>
       score (shared w') <= 9999999 /\
       (score (shared w') = 9999999 ->
        (n_iterations_with_same_score cs' + iterations (trace w)
         = n_iterations_with_same_score cs + iterations (trace w'))%nat)))
    as Hinv.
  cbv beta in Hinv.
  assert (Hloop := Hinv (fun _ _ _ H => H)). clear Hinv.
  assert (H2 : forall (iv0 : ImageVars) cs0 (w0 w' : World),
             shared w' = shared w0 -> trace w' = trace w0 ->
             score (shared w0) <= 9999999 /\
             (score (shared w0) = 9999999 ->
              (n_iterations_with_same_score cs0 + iterations (trace w)
               = n_iterations_with_same_score cs + iterations (trace w0))%nat) ->
             score (shared w') <= 9999999 /\
             (score (shared w') = 9999999 ->
              (n_iterations_with_same_score cs0 + iterations (trace w)
               = n_iterations_with_same_score cs + iterations (trace w'))%nat))
    by (intros ? ? ? ? -> -> H; exact H).
  specialize (Hloop H2). clear H2.
  assert (H3 : forall iv0 cs0 w0 brk iv' cs' w',
             loop_body env iv0 cs0 w0 = Done (brk, iv', cs') w' ->
             score (shared w0) <= 9999999 /\
             (score (shared w0) = 9999999 ->
              (n_iterations_with_same_score cs0 + iterations (trace w)
               = n_iterations_with_same_score cs + iterations (trace w0))%nat) ->
             score (shared w') <= 9999999 /\
             (score (shared w') = 9999999 ->
              (n_iterations_with_same_score cs' + iterations (trace w)
               = n_iterations_with_same_score cs + iterations (trace w'))%nat)).
  { intros iv0 cs0 w0 brk iv' cs' w' E (Hle & Heq).
    destruct (loop_body_cases _ _ _ _ _ _ _ _ E)
      as (Hi & _ & [(_ & _ & Hs & _ & _ & Hn & _)|(Hlt & _ & Hs & _)]).
    - rewrite Hs, Hn, Hi. split; [exact Hle|]. intros H. specialize (Heq H). lia.
    - split; [lia|]. intros H. lia. }
  specialize (Hloop H3 fuel iv cs w2). clear H3.
  assert (Hstart : score (shared w2) <= 9999999 /\
            (score (shared w2) = 9999999 ->
             (n_iterations_with_same_score cs + iterations (trace w)
              = n_iterations_with_same_score cs + iterations (trace w2))%nat))
    by (subst w2; cbn; split; [lia | intros _; lia]).
  specialize (Hloop Hstart).
  destruct (image_loop env fuel iv cs w2) as [[iv' cs'] w3|e w3|w3]; auto.
  unfold _wait_for_next_image. run.
  match goal with
  | |- context [wait_loop env fuel ?s ?w4] =>
      pose proof (wait_loop_preserves env fuel s w4) as Hwait;
      destruct (wait_loop env fuel s w4) as [[] w5|e w5|w5]; auto
  end.
  destruct Hwait as (H1 & _ & H3 & _).
  cbn [shared trace] in H1, H3.
  unfold set_flag_next_image. run. cbn. rewrite H1, H3. exact Hloop.
Qed.

(** C10. The stagnation counter is not reset when the next image starts:
    the body of the outer loop hands the counter it received to the
    per-image loop, so when a pass over an image ends without any accepted
    candidate (the score is still the sentinel), the counter is the one left
    by the previous image plus the iterations of this one; and after a first
    candidate that is not below the sentinel the convergence predicate is
    asked about the previous count plus one. *)
Theorem stagnation_counter_survives_image_switch (env : Env) (fuel : nat)
    (image_folder : string) (brush_sets : list BrushSet) (cs : Counters)
    (w : World) :
  match outer_body env fuel image_folder brush_sets cs w with
  | Done cs' w' =>
      score (shared w') = 9999999 ->
      (n_iterations_with_same_score cs' + iterations (trace w)
       = n_iterations_with_same_score cs + iterations (trace w'))%nat
  | _ => True
  end /\
  (forall iv w1,
      score (shared w1) = 9999999 ->
      candidate_score env iv w1 >= 9999999 ->
      exists brk iv' cs' w',
        loop_body env iv cs w1 = Done (brk, iv', cs') w' /\
        n_iterations_with_same_score cs'
        = S (n_iterations_with_same_score cs) /\
        brk = negb (lock_image (shared w')) &&
              is_drawing_finished (S (n_iterations_with_same_score cs))
                9999999).
Proof.
  split.
  - pose proof (outer_body_counter env fuel image_folder brush_sets cs w) as H.
    destruct (outer_body env fuel image_folder brush_sets cs w); auto.
    apply H.
  - intros iv w1 Hsentinel Hcand.
    destruct (loop_body_spec env iv cs w1) as (brk & w' & sl & E & _).
    eexists _, _, _, _. split; [exact E|].
    destruct (loop_body_cases _ _ _ _ _ _ _ _ E)
      as (_ & Hb & [(_ & _ & Hs & _ & _ & Hn & _)|(Hlt & _)]); [|lia].
    rewrite Hn, Hs, Hsentinel in Hb. split; [exact Hn | exact Hb].
Qed.

(** ** Writes to the shared specimen and score *)

(** C9 (amended). In an iteration of the per-image loop the shared score
    and the shared specimen are assigned together, and only for a candidate
    strictly below the shared score; otherwise neither is assigned.
    Per-image initialisation always assigns the score (the sentinel), with
    no comparison, and assigns the specimen only when the current one is the
    placeholder.  The wait between images assigns nothing. *)
Theorem publish_on_improvement (env : Env) :
  (forall iv cs w,
      exists brk iv' cs' w',
        loop_body env iv cs w = Done (brk, iv', cs') w' /\
        ((candidate_score env iv w < score (shared w) /\
          writes (trace w') =
            [F_update_time_microseconds; F_image_available; F_specimen;
             F_score] ++ writes (trace w))
         \/
         (candidate_score env iv w >= score (shared w) /\
          writes (trace w') =
            F_update_time_microseconds :: writes (trace w)))) /\
  (forall fuel image_folder brush_sets w,
      match _initialize_for_next_image env fuel image_folder brush_sets w with
      | Done (tgt, _, _) w' =>
          score (shared w') = 9999999 /\
          ((is_placeholder (specimen (shared w)) = false /\
            specimen (shared w') = specimen (shared w) /\
            writes (trace w') =
              [F_score; F_target_image; F_brush; F_img_path]
              ++ writes (trace w))
           \/
           (is_placeholder (specimen (shared w)) = true /\
            specimen (shared w') =
              {| is_placeholder := false;
                 strokes := strokes (get_initial_specimen tgt None) |} /\
            writes (trace w') =
              [F_score; F_specimen_is_placeholder; F_specimen; F_target_image;
               F_brush; F_img_path] ++ writes (trace w)))
      | _ => True
      end) /\
  (forall fuel w,
      match _wait_for_next_image env fuel w with
      | Done _ w' | Running w' => writes (trace w') = writes (trace w)
      | Raised _ _ => False
      end).
Proof.
  repeat split.
  - intros iv cs w.
    destruct (loop_body_spec env iv cs w) as (brk & w' & sl & E & _).
    eexists _, _, _, _. split; [exact E|].
    destruct (loop_body_cases _ _ _ _ _ _ _ _ E) as (_ & _ & [H|H]).
    + right. tauto.
    + left. tauto.
  - intros fuel image_folder brush_sets w.
    pose proof (initialize_spec env fuel image_folder brush_sets w) as H.
    destruct (_initialize_for_next_image env fuel image_folder brush_sets w)
      as [[[tgt grad] fit] w'|e w'|w']; auto.
    tauto.
  - intros fuel w. unfold _wait_for_next_image. run.
    match goal with
    | |- context [wait_loop env fuel ?s ?w1] =>
        pose proof (wait_loop_preserves env fuel s w1) as H;
        destruct (wait_loop env fuel s w1)
    end; tauto.
Qed.

End Properties.

(** * Further properties *)

Section MoreProperties.
Context `{C : Collaborators}.

Ltac run :=
  unfold andM, orM, notM, time_time, datetime_now, time_sleep;
  unfold bind, ret, get, assign, tick, log, yield_to_presenter, id;
  cbv beta; cbn [shared step trace].


Lemma Qlt_bool_true (x y : Q) : Qlt_bool x y = true -> (x < y)%Q.
Proof.
  unfold Qlt_bool. intros H. apply negb_true_iff in H.
  apply Qnot_le_lt. intros Hle. apply Qle_bool_iff in Hle. congruence.
Qed.

Lemma Qlt_bool_false (x y : Q) : Qlt_bool x y = false -> (y <= x)%Q.
Proof.
  unfold Qlt_bool. intros H. apply negb_false_iff in H.
  apply Qle_bool_iff. exact H.
Qed.

Lemma Qle_Qlt_bool_false (x y : Q) : (y <= x)%Q -> Qlt_bool x y = false.
Proof.
  unfold Qlt_bool. intros H. apply negb_false_iff.
  apply Qle_bool_iff. exact H.
Qed.

(** ** More on one iteration *)

(** Steps and sleeps of one iteration: the frame time is the clock read
    after the convergence check minus the clock read first. *)
Lemma loop_body_pacing (env : Env) (iv : ImageVars) (cs : Counters)
    (w : World) (brk : bool) (iv' : ImageVars) (cs' : Counters) (w' : World) :
  loop_body env iv cs w = Done (brk, iv', cs') w' ->
  let frame_time := (clock_at env (4 + step w) - clock_at env (step w))%Q in
  (brk = true /\ step w' = (4 + step w)%nat /\
   sleeps (trace w') = sleeps (trace w))
  \/
  (brk = false /\ step w' = (5 + step w)%nat /\
   Qlt_bool frame_time MINIMUM_STEP_TIME_SECONDS = true /\
   sleeps (trace w')
   = (MINIMUM_STEP_TIME_SECONDS - frame_time)%Q :: sleeps (trace w))
  \/
  (brk = false /\ step w' = (5 + step w)%nat /\
   Qlt_bool frame_time MINIMUM_STEP_TIME_SECONDS = false /\
   sleeps (trace w') = sleeps (trace w)).
Proof.
  unfold loop_body, propose, keep_if_improvement, finished_check,
    set_update_time_microseconds, set_score, set_specimen, set_image_available.
  run. cbn.
  destruct (iterate_image _ _ _ _ _ _ _) as [[ns nf] nsc].
  cbn.
  destruct (nsc >=? score (shared w)); cbn;
    destruct (overwrite _ _) eqn:El; cbn;
    try destruct (is_drawing_finished _ _) eqn:E; cbn;
    try destruct (Qlt_bool _ _) eqn:Ep; cbn;
    intros H; injection H as <- <- <- <-; cbn; auto 7.
Qed.

(** X1. Frame pacing.  An iteration that leaves the loop through [break]
    does not sleep.  Otherwise it calls [time.sleep] exactly when the frame
    took less than MINIMUM_STEP_TIME_SECONDS, once, for the positive
    remainder that brings the frame to that minimum. *)
Theorem frame_pacing (env : Env) (iv : ImageVars) (cs : Counters) (w : World) :
  exists brk iv' cs' w',
    loop_body env iv cs w = Done (brk, iv', cs') w' /\
    let frame_time := (clock_at env (4 + step w) - clock_at env (step w))%Q in
    ((brk = true /\ sleeps (trace w') = sleeps (trace w))
     \/
     (brk = false /\ (frame_time < MINIMUM_STEP_TIME_SECONDS)%Q /\
      exists d,
        sleeps (trace w') = d :: sleeps (trace w) /\
        (0 < d)%Q /\ (frame_time + d == MINIMUM_STEP_TIME_SECONDS)%Q)
     \/
     (brk = false /\ (MINIMUM_STEP_TIME_SECONDS <= frame_time)%Q /\
      sleeps (trace w') = sleeps (trace w))).
Proof.
  destruct (loop_body_spec env iv cs w) as (brk & w' & sl & E & _).
  eexists _, _, _, _. split; [exact E|].
  destruct (loop_body_pacing _ _ _ _ _ _ _ _ E)
    as [(Hb & _ & Hs)|[(Hb & _ & Hlt & Hs)|(Hb & _ & Hge & Hs)]].
  - left. auto.
  - right. left. apply Qlt_bool_true in Hlt.
    split; [exact Hb|]. split; [exact Hlt|].
    eexists. split; [exact Hs|]. split.
    + apply (proj1 (Qlt_minus_iff _ _)) in Hlt. exact Hlt.
    + ring.
  - right. right. apply Qlt_bool_false in Hge. auto.
Qed.

(** X2. The latency diagnostic.  After every iteration
    [update_time_microseconds] is the time since the previous iteration's
    [datetime.now()] reduced modulo one second (the [microseconds] attribute
    of a timedelta), so it lies in [0, 1000000) however long the iteration
    took, and [last_update_time] is the new reading. *)
Theorem update_time_is_sub_second (env : Env) (iv : ImageVars) (cs : Counters)
    (w : World) :
  exists brk iv' cs' w',
    loop_body env iv cs w = Done (brk, iv', cs') w' /\
    last_update_time cs' = datetime_at env (2 + step w) /\
    update_time_microseconds (shared w')
    = (last_update_time cs' - last_update_time cs) mod 1000000 /\
    0 <= update_time_microseconds (shared w') < 1000000.
Proof.
  destruct (loop_body_spec env iv cs w) as (brk & w' & sl & E & Hsh & _).
  eexists _, _, _, _. split; [exact E|]. split; [reflexivity|].
  assert (Hu : update_time_microseconds (shared w')
               = (datetime_at env (2 + step w) - last_update_time cs)
                 mod 1000000)
    by (rewrite Hsh; reflexivity).
  split; [exact Hu|]. rewrite Hu. apply Z.mod_pos_bound. lia.
Qed.

(** ** More on the per-image loop *)

Lemma loop_condition_detail (env : Env) (start : Q) (w : World) :
  loop_condition env start w =
  if flag_stop (shared w) then Done false w
  else if flag_next_image (shared w) then Done false w
  else if lock_image (shared w) then Done true w
  else Done (Qlt_bool (clock_at env (step w) - start)
               MAXIMUM_TIME_PER_IMAGE_SECONDS)
         {| shared := shared w; step := S (step w); trace := trace w |}.
Proof.
  unfold loop_condition. run.
  destruct (flag_stop (shared w)); cbn; [reflexivity|].
  destruct (flag_next_image (shared w)); cbn; [reflexivity|].
  destruct (lock_image (shared w)); reflexivity.
Qed.

(** X3. Stop and skip requests are honoured at the next evaluation of the
    loop condition, locked or not: when [flag_stop] or [flag_next_image] is
    set there, the per-image loop returns at once, with its locals as they
    were, without calling [iterate_image] and without writing anything. *)
Theorem image_loop_stops_on_request (env : Env) (fuel : nat) (iv : ImageVars)
    (cs : Counters) (w : World) :
  flag_stop (seen env w) = true \/ flag_next_image (seen env w) = true ->
  image_loop env fuel iv cs w = Done (iv, cs) (after_yield env w).
Proof.
  intros H. rewrite image_loop_unfold. unfold bind at 1. rewrite yield_spec.
  unfold bind at 1. rewrite loop_condition_detail.
  unfold seen in H.
  destruct (flag_stop (shared (after_yield env w))); [reflexivity|].
  destruct (flag_next_image (shared (after_yield env w))); [reflexivity|].
  destruct H; discriminate.
Qed.


(** X5. The time budget is a forced escape.  If the image is not locked and
    is never locked, and the clock is at least
    MAXIMUM_TIME_PER_IMAGE_SECONDS past the image's start from step [N] on,
    then the per-image loop returns within as many iterations as it takes
    the step counter to reach [N], whatever the candidates are. *)
Theorem time_budget_forces_exit (env : Env) (N : nat) (start : Q) :
  never_locks env ->
  (forall n, (N <= n)%nat ->
             (MAXIMUM_TIME_PER_IMAGE_SECONDS <= clock_at env n - start)%Q) ->
  forall fuel iv cs w,
    image_start_time iv = start ->
    lock_image (shared w) = false ->
    (N <= step w + 1 + fuel)%nat ->
    exists r w', image_loop env fuel iv cs w = Done r w'.
Proof.
  intros Hnever Hlate.
  induction fuel as [|fuel IH]; intros iv cs w Hstart Hlock HN;
    rewrite image_loop_unfold; unfold bind at 1; rewrite yield_spec;
    unfold bind at 1; rewrite loop_condition_detail;
    assert (Hlock1 : lock_image (shared (after_yield env w)) = false)
      by (cbn; apply overwrite_stays_false; auto);
    rewrite Hlock1;
    (destruct (flag_stop (shared (after_yield env w)));
     [cbn [ret]; eauto|]);
    (destruct (flag_next_image (shared (after_yield env w)));
     [cbn [ret]; eauto|]);
    cbn [step after_yield].
  - rewrite Hstart, Qle_Qlt_bool_false by (apply Hlate; lia).
    cbn [ret]. eauto.
  - destruct (Qlt_bool _ _); cbn [ret]; [|eauto].
    unfold bind at 1.
    match goal with
    | |- context [loop_body env iv cs ?w2] =>
        destruct (loop_body_spec env iv cs w2) as (brk & w3 & sl & E & _);
        pose proof (loop_body_flags _ _ _ _ _ _ _ _ E) as (_ & _ & Hl);
        pose proof (loop_body_pacing _ _ _ _ _ _ _ _ E) as Hp
    end.
    rewrite E. destruct brk; cbn [ret]; [eauto|].
    cbn [shared step] in Hl, Hp.
    apply IH.
    + exact Hstart.
    + rewrite Hl. apply overwrite_stays_false; auto.
    + destruct Hp as [(_ & Hs & _)|[(_ & Hs & _)|(_ & Hs & _)]]; lia.
Qed.

(** X6. What the per-image loop leaves alone.  Wherever it stands or
    stops, [img_path], [brush] and [target_image] of the shared state and
    the locals [target_image], [target_gradient] and [image_start_time] are
    unchanged, [generation_index] has grown by the number of calls of
    [iterate_image], and the only attributes assigned are [score],
    [specimen], [image_available] and [update_time_microseconds]. *)
Theorem image_loop_frame (env : Env) (fuel : nat) (iv : ImageVars)
    (cs : Counters) (w : World) :
  let kept (iv' : ImageVars) (w' : World) :=
    img_path (shared w') = img_path (shared w) /\
    brush (shared w') = brush (shared w) /\
    target_image (shared w') = target_image (shared w) /\
    target iv' = target iv /\
    target_gradient iv' = target_gradient iv /\
    image_start_time iv' = image_start_time iv /\
    (generation_index iv' + iterations (trace w)
     = generation_index iv + iterations (trace w'))%nat /\
    incl (writes (trace w'))
      ([F_score; F_specimen; F_image_available; F_update_time_microseconds]
       ++ writes (trace w)) in
  match image_loop env fuel iv cs w with
  | Done (iv', _) w' => kept iv' w'
  | Raised _ _ => False
  | Running w' => exists iv', kept iv' w'
  end.
Proof.
  intros kept.
  pose proof (image_loop_invariant env (fun iv' _ w' => kept iv' w')) as H.
  cbv beta in H.
  assert (H1 : forall iv0 (cs0 : Counters) w0,
             kept iv0 w0 -> kept iv0 (after_yield env w0))
    by (intros iv0 cs0 w0 Hk; exact Hk).
  assert (H2 : forall iv0 (cs0 : Counters) (w0 w' : World),
             shared w' = shared w0 -> trace w' = trace w0 ->
             kept iv0 w0 -> kept iv0 w').
  { intros iv0 cs0 w0 w' Hs Ht Hk. unfold kept in *.
    rewrite Hs, Ht. exact Hk. }
  assert (H3 : forall iv0 cs0 w0 brk iv' cs' w',
             loop_body env iv0 cs0 w0 = Done (brk, iv', cs') w' ->
             kept iv0 w0 -> kept iv' w').
  { intros iv0 cs0 w0 brk iv' cs' w' E
      (K1 & K2 & K3 & K4 & K5 & K6 & K7 & K8).
    destruct (loop_body_cases _ _ _ _ _ _ _ _ E) as (Hi & _ & Hc).
    destruct (loop_body_spec env iv0 cs0 w0)
      as (brk0 & w0' & sl & E0 & Hsh & _).
    rewrite E0 in E. injection E as <- <- <- <-.
    unfold kept. rewrite Hsh, Hi. cbn [target target_gradient image_start_time
      generation_index].
    repeat split; try assumption.
    - rewrite <- K1. destruct (negb _); reflexivity.
    - rewrite <- K2. destruct (negb _); reflexivity.
    - rewrite <- K3. destruct (negb _); reflexivity.
    - lia.
    - destruct Hc as [(_ & _ & _ & _ & _ & _ & Hw)|
                      (_ & _ & _ & _ & _ & _ & Hw)];
        rewrite Hw; intros f Hf; cbn in Hf |- *;
        specialize (K8 f); cbn in K8; tauto. }
  specialize (H (fun iv0 cs0 w0 Hk => H1 iv0 cs0 w0 Hk) H2 H3 fuel iv cs w).
  assert (Hk : kept iv w).
  { unfold kept. repeat split; try reflexivity.
    intros f Hf. apply in_or_app. right. exact Hf. }
  specialize (H Hk).
  destruct (image_loop env fuel iv cs w) as [[iv' cs'] w'|e w'|w'];
    [exact H | exact H | destruct H as (iv' & _ & H); eauto].
Qed.

(** ** More on the selector and the initialisation *)

Lemma choose_first_draw (env : Env) (fuel : nat) (paths : list string)
    (previous : string) (w : World) :
  paths <> [] -> ~ In previous paths ->
  choose_until_different env (S fuel) paths previous previous w
  = Done (drawn env paths (step w))
      {| shared := shared w; step := S (step w); trace := trace w |}.
Proof.
  intros Hne Hnotin.
  rewrite choose_until_different_unfold, String.eqb_refl.
  unfold bind.
  destruct (random_choice_nonempty env paths w Hne) as (-> & Hin).
  rewrite choose_until_different_unfold.
  destruct (String.eqb_spec (drawn env paths (step w)) previous)
    as [Heq|Hneq]; [|reflexivity].
  exfalso. apply Hnotin. rewrite <- Heq. exact Hin.
Qed.

Lemma choose_single_stuck (env : Env) (p : string) :
  forall fuel w,
    exists w', choose_until_different env fuel [p] p p w = Running w'.
Proof.
  induction fuel as [|fuel IH]; intros w;
    rewrite choose_until_different_unfold, String.eqb_refl.
  - eexists. reflexivity.
  - unfold random_choice. run. cbn [List.length nth].
    rewrite Nat.mod_1_r. apply IH.
Qed.

(** X7. When the previous path is not one of the directory's files (as on
    the first call, where it is the empty string of the initial state), the
    selector returns the very first draw, using exactly one draw; this
    holds for a directory with a single file too. *)
Theorem selector_returns_first_draw (env : Env) (fuel : nat)
    (image_folder previous : string) (w : World) :
  img_paths image_folder <> [] ->
  ~ In previous (img_paths image_folder) ->
  _get_random_image_path env (S fuel) image_folder previous w
  = Done (drawn env (img_paths image_folder) (step w))
      {| shared := shared w; step := S (step w); trace := trace w |}.
Proof.
  intros Hne Hnotin. unfold _get_random_image_path.
  apply choose_first_draw; assumption.
Qed.

Lemma random_choice_in {A} (env : Env) (seq : list A) (w : World) :
  match random_choice env seq w with
  | Done x w' =>
      In x seq /\ shared w' = shared w /\ trace w' = trace w /\
      step w' = S (step w)
  | Raised e w' => seq = [] /\ e = "IndexError"%string /\ w' = w
  | Running _ => False
  end.
Proof.
  unfold random_choice. destruct seq as [|x l]; [cbn; auto|].
  run. repeat split; auto.
  apply nth_In. apply Nat.mod_upper_bound. discriminate.
Qed.

(** X8. What per-image initialisation establishes when it returns: the new
    [img_path] is a file of the directory and differs from the previous one,
    the brush is one of [brush_sets], the target image and gradient are
    [_prep_image] of the new path, the specimen is not a placeholder, the
    returned fitness is [get_fitness] of the shared specimen against the new
    target, and [image_available] is what it was: it is not reset for the
    new image. *)
Theorem initialize_establishes (env : Env) (fuel : nat)
    (image_folder : string) (brush_sets : list BrushSet) (w : World) :
  match _initialize_for_next_image env fuel image_folder brush_sets w with
  | Done (tgt, grad, fit) w' =>
      In (img_path (shared w')) (img_paths image_folder) /\
      img_path (shared w') <> img_path (shared w) /\
      In (brush (shared w')) brush_sets /\
      (tgt, grad) = _prep_image (img_path (shared w')) /\
      target_image (shared w') = tgt /\
      is_placeholder (specimen (shared w')) = false /\
      fit = get_fitness (specimen (shared w')) tgt DIFF_METHOD /\
      image_available (shared w') = image_available (shared w)
  | _ => True
  end.
Proof.
  unfold _initialize_for_next_image, _get_random_image_path.
  unfold bind at 1. unfold get at 1. unfold bind at 1.
  pose proof (choose_until_different_world env (img_paths image_folder)
                (img_path (shared w)) fuel (img_path (shared w)) w) as Hw.
  cbv zeta in Hw.
  assert (Hsel : match choose_until_different env fuel (img_paths image_folder)
                         (img_path (shared w)) (img_path (shared w)) w with
                 | Done p _ =>
                     In p (img_paths image_folder) /\ p <> img_path (shared w)
                 | _ => True
                 end).
  { destruct (img_paths image_folder) as [|x l] eqn:Ep.
    - destruct fuel; cbn; rewrite String.eqb_refl; exact I.
    - assert (Hne : x :: l <> []) by discriminate.
      pose proof (choose_until_different_spec env (x :: l)
                    (img_path (shared w)) Hne fuel (img_path (shared w)) w)
        as Hs.
      destruct (choose_until_different env fuel (x :: l) _ _ w); auto.
      destruct Hs as (Hp & [->|Hin]); [congruence | auto]. }
  destruct (choose_until_different env fuel (img_paths image_folder)
              (img_path (shared w)) (img_path (shared w)) w)
    as [p [sh1 st1 tr1]|e w1|w1]; cbn [world_of shared trace] in Hw; auto.
  destruct Hw as (Hs & Ht & _). destruct Hsel as (Hin & Hneq). subst sh1 tr1.
  unfold set_img_path. run.
  match goal with
  | |- context [random_choice env brush_sets ?w1] =>
      pose proof (random_choice_in env brush_sets w1) as Hb;
      destruct (random_choice env brush_sets w1) as [b [sh2 st2 tr2]|e w2|w2]
  end; auto.
  cbn [shared trace step] in Hb. destruct Hb as (Hbin & -> & -> & ->).
  unfold set_brush, set_target_image, set_specimen,
    set_specimen_is_placeholder, set_score. run. cbn.
  destruct (is_placeholder (specimen (shared w))) eqn:Eph; cbn;
    repeat split; auto.
Qed.

(** X9. A directory with a single file draws that file once and then hangs:
    from a state whose [img_path] is not the file, initialisation (with at
    least one brush set) returns with [img_path] set to the file, and from
    the state it returns in, the next initialisation is still retrying after
    any number of draws, whatever the draws and the brush sets are. *)
Theorem single_file_second_image_hangs (env : Env) (fuel : nat)
    (image_folder p : string) (brush_sets : list BrushSet) (w : World) :
  img_paths image_folder = [p] ->
  img_path (shared w) <> p ->
  brush_sets <> [] ->
  exists r w',
    _initialize_for_next_image env (S fuel) image_folder brush_sets w
    = Done r w' /\
    img_path (shared w') = p /\
    forall fuel2 brush_sets2,
    exists w'',
      _initialize_for_next_image env fuel2 image_folder brush_sets2 w'
      = Running w''.
Proof.
  intros Hone Hprev Hbrush.
  assert (Hfile : forall w1,
            _get_random_image_path env (S fuel) image_folder
              (img_path (shared w)) w1
            = Done p {| shared := shared w1; step := S (step w1);
                        trace := trace w1 |}).
  { intros w1. unfold _get_random_image_path. rewrite Hone.
    rewrite choose_first_draw;
      [| discriminate | intros [H|[]]; congruence].
    unfold drawn. cbn [List.length nth]. rewrite Nat.mod_1_r. reflexivity. }
  assert (Hret : exists r w',
            _initialize_for_next_image env (S fuel) image_folder brush_sets w
            = Done r w' /\ img_path (shared w') = p).
  { unfold _initialize_for_next_image.
    unfold bind at 1. unfold get at 1. unfold bind at 1.
    rewrite Hfile.
    unfold set_img_path. run.
    destruct brush_sets as [|b l]; [congruence|].
    unfold random_choice, set_brush, set_target_image, set_specimen,
      set_specimen_is_placeholder, set_score. run. cbn.
    destruct (is_placeholder (specimen (shared w))); cbn;
      eexists _, _; split; reflexivity. }
  destruct Hret as (r & w' & E & Hp).
  exists r, w'. split; [exact E|]. split; [exact Hp|].
  intros fuel2 brush_sets2.
  unfold _initialize_for_next_image, _get_random_image_path.
  unfold bind at 1. unfold get at 1. unfold bind at 1.
  rewrite Hone, Hp.
  destruct (choose_single_stuck env p fuel2 w') as (w'' & ->).
  eauto.
Qed.


(** ** More on the wait between two images *)

Lemma wait_condition_detail (env : Env) (start : Q) (w : World) :
  wait_condition env start w =
  if lock_image (shared w) then Done true w
  else if Qlt_bool (clock_at env (step w) - start) WAIT_BETWEEN_IMAGES_SECONDS
  then if flag_stop (shared w) then Done false (ticked w)
       else Done (negb (flag_next_image (shared w))) (ticked w)
  else Done false (ticked w).
Proof.
  unfold wait_condition, ticked. run.
  destruct (lock_image (shared w)); cbn; [reflexivity|].
  destruct (Qlt_bool _ _); cbn; [|reflexivity].
  destruct (flag_stop (shared w)); reflexivity.
Qed.

Lemma wait_loop_exit_reasons (env : Env) (start : Q) :
  forall fuel w,
    match wait_loop env fuel start w with
    | Done _ w' =>
        lock_image (shared w') = false /\
        (flag_stop (shared w') = true \/
         flag_next_image (shared w') = true \/
         (WAIT_BETWEEN_IMAGES_SECONDS
          <= clock_at env (pred (step w')) - start)%Q) /\
        exists k, (k <= fuel)%nat /\
                  sleeps (trace w') = repeat 1%Q k ++ sleeps (trace w)
    | Raised _ _ => False
    | Running w' => sleeps (trace w') = repeat 1%Q fuel ++ sleeps (trace w)
    end.
Proof.
  induction fuel as [|fuel IH]; intros w;
    rewrite wait_loop_unfold; unfold bind at 1; rewrite yield_spec;
    unfold bind at 1; rewrite wait_condition_detail;
    destruct (lock_image (shared (after_yield env w))) eqn:El;
    try destruct (Qlt_bool _ _) eqn:Et;
    try destruct (flag_stop (shared (after_yield env w))) eqn:Es;
    try destruct (flag_next_image (shared (after_yield env w))) eqn:En;
    cbn [negb ret out_of_fuel ticked shared step trace pred after_yield];
    try reflexivity;
    try (split; [exact El|]; split;
         [first [ left; exact Es | right; left; exact En
                | right; right; apply Qlt_bool_false; exact Et ]
         | exists O; split; [lia | reflexivity] ]).
  all: unfold time_sleep, log, bind;
    match goal with
    | IH : forall w, _ |- context [wait_loop ?e ?f ?s ?w2] =>
        specialize (IH w2); destruct (wait_loop e f s w2)
    end;
    match goal with IH : _ |- _ => cbn [trace sleeps] in IH end; auto.
  all: try (match goal with
            | IH : _ /\ _ |- _ => destruct IH as (Hl & Hr & k & Hk & Hs)
            end;
            split; [exact Hl|]; split; [exact Hr|];
            exists (S k); split; [lia|];
            rewrite Hs; cbn [repeat]; rewrite repeat_cons, <- app_assoc;
            reflexivity).
  all: match goal with IH : sleeps _ = _ |- _ => rewrite IH end;
    cbn [repeat]; rewrite repeat_cons, <- app_assoc; reflexivity.
Qed.

(** X11. Why the wait returns and what it does meanwhile.  It never raises;
    every poll that does not end it sleeps exactly one second; and when it
    returns the image is not locked and either [flag_stop] is set,
    [flag_next_image] is set, or the last clock reading is at least
    WAIT_BETWEEN_IMAGES_SECONDS past the start of the wait. *)
Theorem wait_exit_reasons (env : Env) (fuel : nat) (w : World) :
  match _wait_for_next_image env fuel w with
  | Done _ w' =>
      lock_image (shared w') = false /\
      (flag_stop (shared w') = true \/
       flag_next_image (shared w') = true \/
       (WAIT_BETWEEN_IMAGES_SECONDS
        <= clock_at env (pred (step w')) - clock_at env (step w))%Q) /\
      exists k, (k <= fuel)%nat /\
                sleeps (trace w') = repeat 1%Q k ++ sleeps (trace w)
  | Raised _ _ => False
  | Running w' => sleeps (trace w') = repeat 1%Q fuel ++ sleeps (trace w)
  end.
Proof.
  unfold _wait_for_next_image. run.
  exact (wait_loop_exit_reasons env (clock_at env (step w)) fuel (ticked w)).
Qed.

(** X12. When the image is not locked, a stop or skip request ends the wait
    at the poll that sees it: if the first poll finds the lock clear and
    [flag_stop] or [flag_next_image] set, the wait returns without sleeping,
    whatever the clock says. *)
Theorem wait_returns_on_request (env : Env) (fuel : nat) (w : World) :
  lock_image (seen env (ticked w)) = false ->
  flag_stop (seen env (ticked w)) = true \/
  flag_next_image (seen env (ticked w)) = true ->
  exists w',
    _wait_for_next_image env fuel w = Done tt w' /\
    shared w' = seen env (ticked w) /\ trace w' = trace w.
Proof.
  intros Hlock Hflag. unfold seen in *.
  unfold _wait_for_next_image. run. fold (ticked w).
  rewrite wait_loop_unfold. unfold bind at 1. rewrite yield_spec.
  unfold bind at 1. rewrite wait_condition_detail, Hlock.
  destruct (Qlt_bool _ _); [|cbn [ret]; eauto].
  destruct (flag_stop (shared (after_yield env (ticked w)))) eqn:Es;
    [cbn [ret]; eauto|].
  destruct Hflag as [Hs|Hn]; [discriminate|].
  rewrite Hn. cbn [negb ret]. eauto.
Qed.

Lemma wait_loop_expires (env : Env) (N : nat) (start : Q) :
  never_locks env ->
  (forall n, (N <= n)%nat ->
             (WAIT_BETWEEN_IMAGES_SECONDS <= clock_at env n - start)%Q) ->
  forall fuel w,
    lock_image (shared w) = false ->
    (N <= step w + 1 + fuel)%nat ->
    exists w', wait_loop env fuel start w = Done tt w'.
Proof.
  intros Hnever Hlate.
  induction fuel as [|fuel IH]; intros w Hlock HN;
    rewrite wait_loop_unfold; unfold bind at 1; rewrite yield_spec;
    unfold bind at 1; rewrite wait_condition_detail;
    assert (Hlock1 : lock_image (shared (after_yield env w)) = false)
      by (cbn; apply overwrite_stays_false; auto);
    rewrite Hlock1; cbn [step after_yield].
  - rewrite Qle_Qlt_bool_false by (apply Hlate; lia). cbn [ret]. eauto.
  - destruct (Qlt_bool _ _); [|cbn [ret]; eauto].
    destruct (flag_stop _); [cbn [ret]; eauto|].
    destruct (flag_next_image _); cbn [negb ret]; [eauto|].
    unfold time_sleep, log, bind.
    apply IH; [exact Hlock1 | cbn; lia].
Qed.

(** X13. The wait expires.  If the image is not locked and is never locked,
    and the clock is at least WAIT_BETWEEN_IMAGES_SECONDS past the start of
    the wait from step [N] on, the wait returns within as many polls as it
    takes the step counter to reach [N]. *)
Theorem wait_expires (env : Env) (N : nat) (fuel : nat) (w : World) :
  never_locks env ->
  lock_image (shared w) = false ->
  (forall n, (N <= n)%nat ->
             (WAIT_BETWEEN_IMAGES_SECONDS
              <= clock_at env n - clock_at env (step w))%Q) ->
  (N <= step w + 2 + fuel)%nat ->
  exists w', _wait_for_next_image env fuel w = Done tt w'.
Proof.
  intros Hnever Hlock Hlate HN.
  unfold _wait_for_next_image. run.
  apply (wait_loop_expires env N (clock_at env (step w)) Hnever Hlate);
    [exact Hlock | cbn; lia].
Qed.

(** X14. [image_available] is never cleared by the per-image loop: once
    true it is true wherever the loop stands or stops. *)
Theorem image_available_stays (env : Env) (fuel : nat) (iv : ImageVars)
    (cs : Counters) (w : World) :
  image_available (shared w) = true ->
  image_available (shared (world_of (image_loop env fuel iv cs w))) = true.
Proof.
  intros Hav.
  pose proof (image_loop_invariant env
    (fun _ _ w' => image_available (shared w') = true)) as H.
  cbv beta in H.
  specialize (H (fun _ _ _ Hk => Hk)).
  assert (H2 : forall (iv0 : ImageVars) (cs0 : Counters) (w0 w' : World),
             shared w' = shared w0 -> trace w' = trace w0 ->
             image_available (shared w0) = true ->
             image_available (shared w') = true)
    by (intros ? ? ? ? -> _ Hk; exact Hk).
  specialize (H H2). clear H2.
  assert (H3 : forall iv0 cs0 w0 brk iv' cs' w',
             loop_body env iv0 cs0 w0 = Done (brk, iv', cs') w' ->
             image_available (shared w0) = true ->
             image_available (shared w') = true).
  { intros iv0 cs0 w0 brk iv' cs' w' E Hk.
    destruct (loop_body_cases _ _ _ _ _ _ _ _ E)
      as (_ & _ & [(_ & _ & _ & Ha & _)|(_ & _ & _ & Ha & _)]); congruence. }
  specialize (H H3 fuel iv cs w Hav).
  destruct (image_loop env fuel iv cs w) as [[iv' cs'] w'|e w'|w'];
    cbn [world_of];
    [exact H | destruct H | destruct H as (_ & _ & H); exact H].
Qed.

(** ** The outer loop and the whole run *)



Lemma main_loop_unfold (env : Env) (fuel : nat) (image_folder : string)
    (brush_sets : list BrushSet) (cs : Counters) :
  main_loop env fuel image_folder brush_sets cs =
  (yield_to_presenter env ;;
   stop <- get flag_stop ;;
   if negb stop then
     match fuel with
     | O => out_of_fuel
     | S fuel' =>
         cs' <- outer_body env fuel image_folder brush_sets cs ;;
         main_loop env fuel' image_folder brush_sets cs'
     end
   else ret cs).
Proof. destruct fuel; reflexivity. Qed.




(** X17. A stop request seen at the first test of the outer loop ends the
    program at once, whatever the directory holds: the rendering thread is
    started and joined, no image is selected, nothing is written to the
    shared state and no exception is raised, even for an empty directory. *)
Theorem run_stops_before_first_image (env : Env) (fuel : nat)
    (image_folder : string) (brush_sets : list BrushSet) :
  overwrite (w_flag_stop (presenter_at env 1))
    (default_flag_stop state_defaults) = true ->
  exists w',
    run_continuous_finch env fuel image_folder brush_sets = Done tt w' /\
    trace w' = [EvThreadJoin; EvSleep (1 # 10); EvThreadStart] /\
    shared w'
    = apply_interference (presenter_at env 1) _initial_shared_state_object.
Proof.
  intros Hstop.
  unfold run_continuous_finch, initial_world. run.
  rewrite main_loop_unfold. run.
  cbn [apply_interference flag_stop _initial_shared_state_object].
  rewrite Hstop. cbn [negb].
  eexists. split; [reflexivity|]. split; reflexivity.
Qed.


(** X18. Only regular files are candidates.  Whatever the selector returns
    is [join(image_folder, f)] for an entry [f] of the directory for which
    [isfile] holds; and a directory none of whose entries is a regular file
    behaves like an empty one: the selector raises IndexError. *)
Theorem selector_ignores_non_files (env : Env) (fuel : nat)
    (image_folder previous : string) (w : World) :
  match _get_random_image_path env fuel image_folder previous w with
  | Done p _ =>
      exists f, In f (listdir image_folder) /\
                isfile (join image_folder f) = true /\
                p = join image_folder f
  | _ => True
  end /\
  ((forall f, In f (listdir image_folder) ->
              isfile (join image_folder f) = false) ->
   _get_random_image_path env (S fuel) image_folder previous w
   = Raised "IndexError" w).
Proof.
  split.
  - unfold _get_random_image_path.
    assert (Hsel : match choose_until_different env fuel
                           (img_paths image_folder) previous previous w with
                   | Done p _ => In p (img_paths image_folder)
                   | _ => True
                   end).
    { destruct (img_paths image_folder) as [|x l] eqn:Ep.
      - destruct fuel; cbn; rewrite String.eqb_refl; exact I.
      - assert (Hne : x :: l <> []) by discriminate.
        pose proof (choose_until_different_spec env (x :: l) previous Hne
                      fuel previous w) as Hs.
        destruct (choose_until_different env fuel (x :: l) _ _ w); auto.
        destruct Hs as (Hp & [->|Hin]); [congruence | auto]. }
    destruct (choose_until_different env fuel (img_paths image_folder)
                previous previous w) as [p w'|e w'|w']; auto.
    unfold img_paths in Hsel. apply in_map_iff in Hsel.
    destruct Hsel as (f & Hp & Hf). apply filter_In in Hf.
    destruct Hf as (Hin & Hfile). exists f. auto.
  - intros Hnone. apply empty_directory_raises.
    unfold img_paths.
    assert (Hfil : filter (fun f => isfile (join image_folder f))
                     (listdir image_folder) = []).
    { induction (listdir image_folder) as [|f l IH]; [reflexivity|].
      cbn. rewrite (Hnone f (or_introl eq_refl)).
      apply IH. intros f' Hf'. apply Hnone. right. exact Hf'. }
    rewrite Hfil. reflexivity.
Qed.

(** X19. The stagnation counter counts iterations.  When the per-image loop
    returns, the counter is at most the count it was entered with plus the
    iterations it ran, and unless the score is still the one the loop was
    entered with, the counter is strictly less than the iterations run. *)
Theorem stagnation_counter_bounds (env : Env) (fuel : nat) (iv : ImageVars)
    (cs : Counters) (w : World) :
  match image_loop env fuel iv cs w with
  | Done (_, cs') w' =>
      (n_iterations_with_same_score cs' + iterations (trace w)
       <= n_iterations_with_same_score cs + iterations (trace w'))%nat /\
      (score (shared w') = score (shared w) \/
       (n_iterations_with_same_score cs' + iterations (trace w)
        < iterations (trace w'))%nat)
  | Raised _ _ => False
  | Running _ => True
  end.
Proof.
  set (inv := fun (cs' : Counters) (w' : World) =>
    (iterations (trace w) <= iterations (trace w'))%nat /\
    score (shared w') <= score (shared w) /\
    (n_iterations_with_same_score cs' + iterations (trace w)
     <= n_iterations_with_same_score cs + iterations (trace w'))%nat /\
    (score (shared w') = score (shared w) \/
     (n_iterations_with_same_score cs' + iterations (trace w)
      < iterations (trace w'))%nat)).
  pose proof (image_loop_invariant env (fun _ cs' w' => inv cs' w')) as H.
  cbv beta in H.
  assert (H1 : forall (iv0 : ImageVars) cs0 w0,
             inv cs0 w0 -> inv cs0 (after_yield env w0))
    by (intros iv0 cs0 w0 Hk; exact Hk).
  assert (H2 : forall (iv0 : ImageVars) cs0 (w0 w' : World),
             shared w' = shared w0 -> trace w' = trace w0 ->
             inv cs0 w0 -> inv cs0 w')
    by (intros iv0 cs0 w0 w' Hs Ht Hk; unfold inv in *;
        rewrite Hs, Ht; exact Hk).
  assert (H3 : forall iv0 cs0 w0 brk iv' cs' w',
             loop_body env iv0 cs0 w0 = Done (brk, iv', cs') w' ->
             inv cs0 w0 -> inv cs' w').
  { intros iv0 cs0 w0 brk iv' cs' w' E (K1 & K2 & K3 & K4).
    destruct (loop_body_cases _ _ _ _ _ _ _ _ E)
      as (Hi & _ & [(_ & _ & Hs & _ & _ & Hn & _)|
                    (Hlt & _ & Hs & _ & _ & Hn & _)]);
      unfold inv; rewrite Hi, Hn, Hs.
    - repeat split; lia.
    - repeat split; lia. }
  specialize (H H1 H2 H3 fuel iv cs w).
  assert (Hk : inv cs w) by (unfold inv; repeat split; auto; lia).
  specialize (H Hk).
  destruct (image_loop env fuel iv cs w) as [[iv' cs'] w'|e w'|w'];
    [destruct H as (_ & _ & H); exact H | exact H | exact I].
Qed.

End MoreProperties.

(** * The properties on the concrete instance *)

Module Scenarios.
Import Demo.
Local Open Scope string_scope.

Lemma quiet_never_unlocks clock seeds draws :
  never_unlocks (quiet_env clock seeds draws).
Proof. intros n. cbn. discriminate. Defined.

Lemma quiet_never_signals clock seeds draws :
  never_signals (quiet_env clock seeds draws).
Proof. intros n. cbn. split; discriminate. Defined.

(** Locked, no flag raised, the clock long past the ten minutes: the loop
    condition is true and the loop is still running after fifty iterations. *)
Lemma lock_overrides_timeout_witness :
  let env := quiet_env late (fun _ => 3) (fun n => n) in
  let w := demo_world 5 false false true in
  lock_image (shared w) = true /\
  never_unlocks env /\ never_signals env /\
  loop_condition env 0%Q w = Done true w /\
  finished_check 7%nat w = Done false w /\
  exists w', image_loop env 50 demo_image_vars (demo_counters 0) w = Running w'.
Proof.
  intros env w.
  destruct (lock_overrides_timeout env) as (Hcond & Hcheck & _ & Hruns).
  split; [reflexivity|].
  split; [apply quiet_never_unlocks|].
  split; [apply quiet_never_signals|].
  split; [apply (Hcond 0%Q w); reflexivity|].
  split; [apply (Hcheck 7%nat w); reflexivity|].
  apply Hruns;
    [apply quiet_never_unlocks | apply quiet_never_signals | reflexivity ..].
Defined.

(** Locked with both exit flags raised: the wait is still polling after a
    hundred poll intervals. *)
Lemma wait_ignores_exit_flags_witness :
  let env := quiet_env ticking (fun _ => 3) (fun n => n) in
  let w := demo_world 5 true true true in
  lock_image (shared w) = true /\ flag_stop (shared w) = true /\
  flag_next_image (shared w) = true /\ never_unlocks env /\
  exists w', _wait_for_next_image env 100 w = Running w'.
Proof.
  intros env w.
  split; [reflexivity|]. split; [reflexivity|]. split; [reflexivity|].
  split; [apply quiet_never_unlocks|].
  apply (proj2 (wait_ignores_exit_flags_while_locked env));
    [apply quiet_never_unlocks | reflexivity].
Defined.

Lemma pair_paths : img_paths "pair" = ["pair/a.png"; "pair/b.png"].
Proof. reflexivity. Defined.

Lemma pair_distinct : NoDup (img_paths "pair").
Proof.
  rewrite pair_paths.
  constructor; [cbn; intros [H|[]]; discriminate H|].
  constructor; [cbn; intros []|]. constructor.
Defined.

(** Two files, the previous path the first of them, the first draw the
    previous path again and the second draw the other file. *)
Lemma selector_non_repetition_witness :
  let env := quiet_env ticking (fun _ => 3) (fun n => n) in
  let w := demo_world 5 false false false in
  NoDup (img_paths "pair") /\ (2 <= List.length (img_paths "pair"))%nat /\
  exists p w',
    _get_random_image_path env 5 "pair" "pair/a.png" w = Done p w' /\
    In p (img_paths "pair") /\ p <> "pair/a.png".
Proof.
  intros env w.
  split; [exact pair_distinct|]. split; [cbn; lia|].
  destruct (selector_non_repetition env "pair" "pair/a.png" pair_distinct)
    as (_ & _ & Hreturns & _); [cbn; lia|].
  apply (Hreturns 5%nat w 1%nat); [lia|].
  vm_compute. discriminate.
Defined.

(** One file, already used. *)
Lemma single_file_never_returns_witness :
  let env := quiet_env ticking (fun _ => 3) (fun n => n) in
  let w := demo_world 5 false false false in
  img_paths "single" = ["single/a.png"] /\
  exists w',
    _get_random_image_path env 1000 "single" "single/a.png" w = Running w'.
Proof.
  intros env w. split; [reflexivity|].
  apply (single_file_never_returns env 1000 "single" "single/a.png" w).
  reflexivity.
Defined.

(** An empty directory. *)
Lemma empty_directory_witness :
  let env := quiet_env ticking (fun _ => 3) (fun n => n) in
  img_paths "empty" = [] /\
  overwrite (w_flag_stop (presenter_at env 1))
    (default_flag_stop state_defaults) = false /\
  exists w',
    run_continuous_finch env 3 "empty" [1%nat] = Raised "IndexError" w' /\
    iterations (trace w') = O /\ writes (trace w') = [].
Proof.
  intros env. split; [reflexivity|]. split; [reflexivity|].
  apply (empty_directory_fails_before_first_iteration env 2 "empty" [1%nat]);
    reflexivity.
Defined.

(** C8, as stated, fails: the error of an empty directory is IndexError, and
    no error called NoCandidateImages is raised. *)
Lemma empty_directory_error_is_not_NoCandidateImages :
  let run :=
    run_continuous_finch (quiet_env ticking (fun _ => 3) (fun n => n))
      3 "empty" [1%nat] in
  (exists w', run = Raised "IndexError" w') /\
  ~ (exists w', run = Raised "NoCandidateImages" w').
Proof.
  intros run. split.
  - vm_compute. eexists. reflexivity.
  - intros (w' & H). vm_compute in H. discriminate H.
Qed.

(** C9, as stated, fails: on the second image the initialisation assigns the
    score, making it worse, and does not assign the specimen. *)
Lemma initialization_writes_score_alone :
  let env := quiet_env ticking (fun _ => 3) (fun n => n) in
  let w := demo_world 5 false false false in
  exists r w',
    _initialize_for_next_image env 5 "pair" [1%nat] w = Done r w' /\
    In F_score (writes (trace w')) /\
    ~ In F_specimen (writes (trace w')) /\
    specimen (shared w') = specimen (shared w) /\
    score (shared w) = 5 /\ score (shared w') = 9999999.
Proof.
  intros env w. eexists _, _. split; [vm_compute; reflexivity|].
  cbn. repeat split; auto.
  intros H. repeat (destruct H as [H|H]; [discriminate H|]). exact H.
Qed.

(** The previous image left the counter at 2; no candidate for the new image
    beats the sentinel; the new image is given up after a single iteration,
    with the counter at 3. *)
Lemma stagnation_counter_survives_witness :
  let env := quiet_env ticking (fun _ => 9999999) (fun n => n) in
  let w := demo_world 5 false false false in
  exists cs' w',
    outer_body env 40 "pair" [1%nat] (demo_counters 2) w = Done cs' w' /\
    score (shared w') = 9999999 /\
    iterations (trace w') = 1%nat /\
    (n_iterations_with_same_score cs' + iterations (trace w)
     = 2 + iterations (trace w'))%nat.
Proof.
  intros env w.
  destruct (stagnation_counter_survives_image_switch env 40 "pair"
              [1%nat] (demo_counters 2) w) as [H _].
  destruct (outer_body env 40 "pair" [1%nat] (demo_counters 2) w)
    as [cs' w'|e w'|w'] eqn:E.
  - exists cs', w'. vm_compute in E. injection E as <- <-.
    split; [reflexivity|]. split; [reflexivity|]. split; [reflexivity|].
    apply H. reflexivity.
  - vm_compute in E. discriminate E.
  - vm_compute in E. discriminate E.
Defined.

End Scenarios.

(** * The further properties on the concrete instance *)

Module MoreScenarios.
Import Demo MoreDemo.
Local Open Scope string_scope.

Lemma quiet_never_locks clock seeds draws :
  never_locks (quiet_env clock seeds draws).
Proof. intros n. cbn. discriminate. Defined.

Lemma late_is_late (n : nat) :
  (MAXIMUM_TIME_PER_IMAGE_SECONDS <= late n - 0)%Q.
Proof.
  unfold late, MAXIMUM_TIME_PER_IMAGE_SECONDS.
  change 0%Q with (inject_Z 0).
  unfold Qminus. rewrite <- inject_Z_opp, <- inject_Z_plus.
  rewrite <- Zle_Qle. lia.
Defined.

Lemma ticking_passes_a_minute (n : nat) :
  (60 <= n)%nat ->
  (WAIT_BETWEEN_IMAGES_SECONDS <= ticking n - ticking 0)%Q.
Proof.
  intros H. unfold ticking, WAIT_BETWEEN_IMAGES_SECONDS.
  unfold Qminus. rewrite <- inject_Z_opp, <- inject_Z_plus.
  rewrite <- Zle_Qle. cbn [Z.of_nat]. lia.
Defined.

(** Locked, with a stop request pending. *)
Lemma image_loop_stops_on_request_witness :
  let env := quiet_env ticking (fun _ => 3) (fun n => n) in
  let w := demo_world 5 true false true in
  (flag_stop (seen env w) = true \/ flag_next_image (seen env w) = true) /\
  image_loop env 10 demo_image_vars (demo_counters 4) w
  = Done (demo_image_vars, demo_counters 4) (after_yield env w).
Proof.
  intros env w.
  assert (H : flag_stop (seen env w) = true \/ flag_next_image (seen env w) = true)
    by (left; reflexivity).
  split; [exact H|].
  exact (image_loop_stops_on_request env 10 demo_image_vars (demo_counters 4)
           w H).
Defined.

(** Not locked, the clock long past the budget on entry. *)
Lemma time_budget_forces_exit_witness :
  let env := quiet_env late (fun _ => 3) (fun n => n) in
  let w := demo_world 5 false false false in
  never_locks env /\
  lock_image (shared w) = false /\
  exists r w', image_loop env 0 demo_image_vars (demo_counters 0) w = Done r w'.
Proof.
  intros env w.
  split; [apply quiet_never_locks|]. split; [reflexivity|].
  apply (time_budget_forces_exit env 0 0%Q (quiet_never_locks _ _ _)
           (fun n _ => late_is_late n) 0 demo_image_vars (demo_counters 0) w);
    [reflexivity | reflexivity | cbn; lia].
Defined.

(** The first call on the one-file directory. *)
Lemma selector_returns_first_draw_witness :
  let env := quiet_env ticking (fun _ => 3) (fun n => n) in
  let w := demo_world 5 false false false in
  img_paths "single" <> [] /\ ~ In "" (img_paths "single") /\
  _get_random_image_path env 1 "single" "" w
  = Done "single/a.png"
      {| shared := shared w; step := 1; trace := trace w |}.
Proof.
  intros env w.
  assert (Hne : img_paths "single" <> []) by (cbn; discriminate).
  assert (Hnotin : ~ In "" (img_paths "single"))
    by (cbn; intros [H|[]]; discriminate H).
  split; [exact Hne|]. split; [exact Hnotin|].
  exact (selector_returns_first_draw env 0 "single" "" w Hne Hnotin).
Defined.

(** The one-file directory: the first image is drawn, the second
    initialisation does not return. *)
Lemma single_file_second_image_hangs_witness :
  let env := quiet_env ticking (fun _ => 3) (fun n => n) in
  let w := demo_world 5 false false false in
  img_paths "single" = ["single/a.png"] /\
  img_path (shared w) <> "single/a.png" /\
  exists r w',
    _initialize_for_next_image env 1 "single" [1%nat] w = Done r w' /\
    img_path (shared w') = "single/a.png" /\
    exists w'', _initialize_for_next_image env 500 "single" [1%nat] w'
                = Running w''.
Proof.
  intros env w.
  assert (Hprev : img_path (shared w) <> "single/a.png")
    by (cbn; discriminate).
  assert (Hbrush : [1%nat] <> []) by discriminate.
  split; [reflexivity|]. split; [exact Hprev|].
  destruct (single_file_second_image_hangs env 0 "single" "single/a.png"
              [1%nat] w eq_refl Hprev Hbrush) as (r & w' & E & Hp & Hhang).
  exists r, w'. split; [exact E|]. split; [exact Hp|].
  apply Hhang.
Defined.


(** Not locked, with a stop request pending when the wait starts. *)
Lemma wait_returns_on_request_witness :
  let env := quiet_env ticking (fun _ => 3) (fun n => n) in
  let w := demo_world 5 true false false in
  lock_image (seen env (ticked w)) = false /\
  flag_stop (seen env (ticked w)) = true /\
  exists w', _wait_for_next_image env 0 w = Done tt w' /\ trace w' = trace w.
Proof.
  intros env w. split; [reflexivity|]. split; [reflexivity|].
  destruct (wait_returns_on_request env 0 w eq_refl (or_introl eq_refl))
    as (w' & E & _ & Ht).
  exists w'. split; [exact E | exact Ht].
Defined.

(** Not locked, no request, one second per step: the wait is over within
    sixty polls. *)
Lemma wait_expires_witness :
  let env := quiet_env ticking (fun _ => 3) (fun n => n) in
  let w := demo_world 5 false false false in
  never_locks env /\ lock_image (shared w) = false /\
  exists w', _wait_for_next_image env 60 w = Done tt w'.
Proof.
  intros env w.
  split; [apply quiet_never_locks|]. split; [reflexivity|].
  apply (wait_expires env 60 60 w (quiet_never_locks _ _ _) eq_refl
           (fun n H => ticking_passes_a_minute n H)).
  cbn. lia.
Defined.

(** An image that was available stays available through iterations that
    reject every candidate. *)
Lemma image_available_stays_witness :
  let env := quiet_env ticking (fun _ => 9) (fun n => n) in
  let w := demo_world 5 false false false in
  image_available (shared w) = true /\
  image_available
    (shared (world_of (image_loop env 2 demo_image_vars (demo_counters 0) w)))
  = true.
Proof.
  intros env w. split; [reflexivity|].
  exact (image_available_stays env 2 demo_image_vars (demo_counters 0) w
           eq_refl).
Defined.

(** A stop request raised before the outer loop's first test, on the empty
    directory. *)
Lemma run_stops_before_first_image_witness :
  overwrite (w_flag_stop (presenter_at stopping_env 1))
    (default_flag_stop state_defaults) = true /\
  exists w',
    run_continuous_finch stopping_env 5 "empty" [] = Done tt w' /\
    trace w' = [EvThreadJoin; EvSleep (1 # 10); EvThreadStart].
Proof.
  split; [reflexivity|].
  destruct (run_stops_before_first_image stopping_env 5 "empty" [] eq_refl)
    as (w' & E & Ht & _).
  exists w'. split; [exact E | exact Ht].
Defined.

(** A directory holding only sub-directories. *)
Lemma selector_ignores_non_files_witness :
  (forall f, In f (@listdir demo_nested "nested") ->
             @isfile demo_nested (@join demo_nested "nested" f) = false) /\
  @_get_random_image_path demo_nested nested_env 1 "nested" "" nested_world
  = Raised "IndexError" nested_world.
Proof.
  assert (H : forall f, In f (@listdir demo_nested "nested") ->
                @isfile demo_nested (@join demo_nested "nested" f) = false)
    by (cbn; intros f [<-|[<-|[]]]; reflexivity).
  split; [exact H|].
  exact (proj2 (@selector_ignores_non_files demo_nested nested_env 0
                  "nested" "" nested_world) H).
Defined.

End MoreScenarios.
